(** * Rate limiter of webliAI-backend: a shallow embedding and its properties

    The development follows the three layers of [src/core/rate-limiter]:
    the storage interface with its in-memory backend, the token-bucket
    strategy, and the [RateLimiter] orchestrator.

    Modelling conventions.
    - A JavaScript [number] is an exact rational ([Q]).  The code only adds,
      subtracts, multiplies, divides, compares and rounds; on rationals all
      of these are exact.  Division by zero (which yields [Infinity] or
      [NaN] in JavaScript) is outside the model, so every statement whose
      computation divides by [config.duration] or by the refill rate
      assumes a valid configuration.
    - An [async] method is a function from the state of the objects it can
      reach to an outcome (a thrown [Error] or a value) and the new state.
    - [Date.now()] is an explicit argument [now]: one reading per
      operation, shared by the storage calls that the operation makes. *)

From Stdlib Require Import QArith Qround Qminmax Lqa ZArith Lia Ascii String.
From stdpp Require Import gmap strings list.

Local Open Scope Q_scope.

(** ** Numbers *)

Definition number := Q.

Module Num.
(** [a < b] on numbers. *)
Definition ltb (a b : number) : bool := negb (Qle_bool b a).
(** [a >= b] on numbers. *)
Definition geb (a b : number) : bool := Qle_bool b a.
(** JavaScript truthiness of a number: everything but zero. *)
Definition truthy (a : number) : bool := negb (Qeq_bool a 0).
(** [a || dflt] for an optional number field. *)
Definition or_else (a : option number) (dflt : number) : number :=
  match a with
  | Some x => if truthy x then x else dflt
  | None => dflt
  end.
End Num.

Module Math.
Definition floor (x : number) : number := inject_Z (Qfloor x).
Definition ceil (x : number) : number := inject_Z (Qceiling x).
Definition min (x y : number) : number := Qmin x y.
End Math.

(** ** Data model (types.ts) *)

Record RateLimitConfig := {
  points : number;
  duration : number;
  blockDuration : option number;
  keyPrefix : option string;
  consumeOnFailure : option bool;
}.

Record RateLimitData := {
  tokens : number;
  lastRefill : number;
  consumed : number;
  blockUntil : option number;
}.

Record RateLimitResult := {
  allowed : bool;
  remaining : number;
  limit : number;
  resetAt : number;
  retryAfter : number;
  result_consumed : number;
  isBlocked : option bool;
}.

(** ** Asynchronous computations that may throw *)

Inductive Error := mkError (message : string).

Definition Async (S A : Type) : Type := S -> (Error + A) * S.

Definition ret {S A} (a : A) : Async S A := fun s => (inr a, s).

Definition throw {S A} (e : Error) : Async S A := fun s => (inl e, s).

Definition bind {S A B} (m : Async S A) (k : A -> Async S B) : Async S B :=
  fun s =>
    match m s with
    | (inr a, s') => k a s'
    | (inl e, s') => (inl e, s')
    end.

(** [try { m } catch (e) { h e }]: the state changes made before the throw
    are kept. *)
Definition try_catch {S A} (m : Async S A) (h : Error -> Async S A)
  : Async S A :=
  fun s =>
    match m s with
    | (inr a, s') => (inr a, s')
    | (inl e, s') => h e s'
    end.

Notation "'await' x <- m ;; k" := (bind m (fun x => k))
  (at level 10, x name, m at level 99, k at level 200).
Notation "'await_' m ;; k" := (bind m (fun _ => k))
  (at level 10, m at level 99, k at level 200).

(** ** Storage interface (IRateLimitStorage) *)

Class IRateLimitStorage (S : Type) := {
  storage_get : number -> string -> Async S (option RateLimitData);
  storage_set : number -> string -> RateLimitData -> number -> Async S unit;
  storage_delete : string -> Async S unit;
  storage_isHealthy : Async S bool;
}.

(** ** In-memory backend (storage/base.storage.ts, storage/memory.storage.ts) *)

Record CacheEntry := {
  data : RateLimitData;
  expiresAt : number;
}.

Record MemoryRateLimitStorage := {
  storage_keyPrefix : string;
  cache : gmap string CacheEntry;
}.

Module Memory.

(** [new MemoryRateLimitStorage(keyPrefix)], default prefix 'ratelimit'. *)
Definition new (keyPrefix : option string) : MemoryRateLimitStorage :=
  {| storage_keyPrefix := default "ratelimit"%string keyPrefix;
     cache := ∅ |}.

Definition buildKey (self : MemoryRateLimitStorage) (key : string) : string :=
  (storage_keyPrefix self +:+ ":" +:+ key)%string.

Definition with_cache (self : MemoryRateLimitStorage)
    (c : gmap string CacheEntry) : MemoryRateLimitStorage :=
  {| storage_keyPrefix := storage_keyPrefix self; cache := c |}.

Definition get (now : number) (key : string)
  : Async MemoryRateLimitStorage (option RateLimitData) :=
  fun self =>
    let fullKey := buildKey self key in
    match cache self !! fullKey with
    | None => (inr None, self)
    | Some entry =>
        if Num.ltb (expiresAt entry) now
        then (inr None, with_cache self (delete fullKey (cache self)))
        else (inr (Some (data entry)), self)
    end.

Definition set (now : number) (key : string) (d : RateLimitData)
    (ttlInSeconds : number) : Async MemoryRateLimitStorage unit :=
  fun self =>
    let fullKey := buildKey self key in
    let expiresAt := now + ttlInSeconds * 1000 in
    (inr tt,
     with_cache self
       (<[fullKey := {| data := d; expiresAt := expiresAt |}]> (cache self))).

Definition delete (key : string) : Async MemoryRateLimitStorage unit :=
  fun self =>
    let fullKey := buildKey self key in
    (inr tt, with_cache self (base.delete fullKey (cache self))).

Definition isHealthy : Async MemoryRateLimitStorage bool := ret true.

(** [cleanup()]: the periodic sweep of expired entries. *)
Definition cleanup (now : number) (self : MemoryRateLimitStorage)
  : MemoryRateLimitStorage :=
  with_cache self
    (filter (fun kv => Num.ltb (expiresAt kv.2) now = false) (cache self)).

(** [size()]: the number of entries physically held, expired or not. *)
Definition size (self : MemoryRateLimitStorage) : nat := base.size (cache self).

(** [clear()] *)
Definition clear (self : MemoryRateLimitStorage) : MemoryRateLimitStorage :=
  with_cache self ∅.

End Memory.

#[export] Instance memory_storage : IRateLimitStorage MemoryRateLimitStorage := {
  storage_get := Memory.get;
  storage_set := Memory.set;
  storage_delete := Memory.delete;
  storage_isHealthy := Memory.isHealthy;
}.

(** ** Token-bucket strategy (strategies/token-bucket.strategy.ts) *)

(** The strategy object holds a reference to the storage and a key prefix;
    the storage is the state that its methods run on. *)
Record TokenBucketStrategy := {
  strategy_keyPrefix : string;
}.

Module TokenBucket.
Section WithStorage.
Context {S : Type} `{IRateLimitStorage S}.

Definition new (keyPrefix : option string) : TokenBucketStrategy :=
  {| strategy_keyPrefix := default "tb"%string keyPrefix |}.

Definition buildKey (self : TokenBucketStrategy) (identifier : string)
  : string :=
  (strategy_keyPrefix self +:+ ":" +:+ identifier)%string.

(** Tokens per second. *)
Definition getRefillRate (config : RateLimitConfig) : number :=
  points config / duration config.

Definition refillTokens (d : RateLimitData) (config : RateLimitConfig)
    (now : number) : RateLimitData :=
  let refillRate := getRefillRate config in
  let elapsed := (now - lastRefill d) / 1000 in
  let tokensToAdd := elapsed * refillRate in
  let newTokens := Math.min (points config) (tokens d + tokensToAdd) in
  {| tokens := newTokens;
     lastRefill := now;
     consumed := consumed d;
     blockUntil := blockUntil d |}.

(** The bucket of an identifier that storage does not know. *)
Definition fresh (config : RateLimitConfig) (now : number) : RateLimitData :=
  {| tokens := points config;
     lastRefill := now;
     consumed := 0;
     blockUntil := None |}.

(** [data.blockUntil && data.blockUntil > now] *)
Definition blockedAt (d : RateLimitData) (now : number) : bool :=
  match blockUntil d with
  | Some b => Num.truthy b && Num.ltb now b
  | None => false
  end.

Definition blockedResult (d : RateLimitData) (config : RateLimitConfig)
    (now : number) : RateLimitResult :=
  {| allowed := false;
     remaining := 0;
     limit := points config;
     resetAt := default 0 (blockUntil d);
     retryAfter := Math.ceil ((default 0 (blockUntil d) - now) / 1000);
     result_consumed := consumed d;
     isBlocked := Some true |}.

(** [if (config.blockDuration) data.blockUntil = now + blockDuration*1000] *)
Definition applyBlock (d : RateLimitData) (config : RateLimitConfig)
    (now : number) : RateLimitData :=
  match blockDuration config with
  | Some bd =>
      if Num.truthy bd
      then {| tokens := tokens d;
              lastRefill := lastRefill d;
              consumed := consumed d;
              blockUntil := Some (now + bd * 1000) |}
      else d
  | None => d
  end.

Definition consume (self : TokenBucketStrategy) (now : number)
    (identifier : string) (pts : number) (config : RateLimitConfig)
  : Async S RateLimitResult :=
  let key := buildKey self identifier in
  await stored <- storage_get now key ;;
  let d := match stored with Some d => d | None => fresh config now end in
  if blockedAt d now then ret (blockedResult d config now)
  else
    let d := refillTokens d config now in
    if Num.ltb (tokens d) pts then
      let retryAfter :=
        Math.ceil ((pts - tokens d) / getRefillRate config) in
      let d := applyBlock d config now in
      await_ storage_set now key d
               (duration config + Num.or_else (blockDuration config) 60) ;;
      ret {| allowed := false;
             remaining := Math.floor (tokens d);
             limit := points config;
             resetAt := now + retryAfter * 1000;
             retryAfter := retryAfter;
             result_consumed := consumed d;
             isBlocked := None |}
    else
      let d := {| tokens := tokens d - pts;
                  lastRefill := lastRefill d;
                  consumed := consumed d + pts;
                  blockUntil := blockUntil d |} in
      let tokensNeeded := points config - tokens d in
      let secondsToFull := tokensNeeded / getRefillRate config in
      let resetAt := now + secondsToFull * 1000 in
      await_ storage_set now key d (duration config) ;;
      ret {| allowed := true;
             remaining := Math.floor (tokens d);
             limit := points config;
             resetAt := Math.floor resetAt;
             retryAfter := 0;
             result_consumed := consumed d;
             isBlocked := None |}.

Definition getStatus (self : TokenBucketStrategy) (now : number)
    (identifier : string) (config : RateLimitConfig)
  : Async S RateLimitResult :=
  let key := buildKey self identifier in
  await stored <- storage_get now key ;;
  match stored with
  | None =>
      ret {| allowed := true;
             remaining := points config;
             limit := points config;
             resetAt := now;
             retryAfter := 0;
             result_consumed := 0;
             isBlocked := None |}
  | Some d =>
      if blockedAt d now then ret (blockedResult d config now)
      else
        let d := refillTokens d config now in
        let tokensNeeded := points config - tokens d in
        let secondsToFull := tokensNeeded / getRefillRate config in
        let resetAt := now + secondsToFull * 1000 in
        ret {| allowed := Num.geb (tokens d) 1;
               remaining := Math.floor (tokens d);
               limit := points config;
               resetAt := Math.floor resetAt;
               retryAfter := 0;
               result_consumed := consumed d;
               isBlocked := None |}
  end.

Definition reset (self : TokenBucketStrategy) (identifier : string)
  : Async S unit :=
  storage_delete (buildKey self identifier).

Definition isBlocked (self : TokenBucketStrategy) (now : number)
    (identifier : string) : Async S bool :=
  let key := buildKey self identifier in
  await stored <- storage_get now key ;;
  match stored with
  | None => ret false
  | Some d =>
      match blockUntil d with
      | None => ret false
      | Some b => if Num.truthy b then ret (Num.ltb now b) else ret false
      end
  end.

Definition block (self : TokenBucketStrategy) (now : number)
    (identifier : string) (duration : number) : Async S unit :=
  let key := buildKey self identifier in
  let blockUntil := now + duration * 1000 in
  let d := {| tokens := 0;
              lastRefill := now;
              consumed := 0;
              blockUntil := Some blockUntil |} in
  storage_set now key d (duration + 60).

End WithStorage.
End TokenBucket.

(** ** Strategy interface (IRateLimitStrategy) *)

Class IRateLimitStrategy (T S : Type) := {
  strategy_consume :
    T -> number -> string -> number -> RateLimitConfig ->
    Async S RateLimitResult;
  strategy_reset : T -> string -> Async S unit;
  strategy_getStatus :
    T -> number -> string -> RateLimitConfig -> Async S RateLimitResult;
  strategy_block : T -> number -> string -> number -> Async S unit;
  strategy_isBlocked : T -> number -> string -> Async S bool;
}.

#[export] Instance token_bucket_strategy {S} `{IRateLimitStorage S}
  : IRateLimitStrategy TokenBucketStrategy S := {
  strategy_consume := TokenBucket.consume;
  strategy_reset := TokenBucket.reset;
  strategy_getStatus := TokenBucket.getStatus;
  strategy_block := TokenBucket.block;
  strategy_isBlocked := TokenBucket.isBlocked;
}.

(** ** Rate limiter (rate-limiter.ts) *)

(** [Partial<RateLimitConfig>]: a per-call override of some fields. *)
Record PartialConfig := {
  override_points : option number;
  override_duration : option number;
  override_blockDuration : option number;
  override_keyPrefix : option string;
  override_consumeOnFailure : option bool;
}.

(** The limiter object: the fields fixed by the constructor.  [onError]
    tells whether a callback is registered; its invocations are recorded
    in the state. *)
Record RateLimiter (T : Type) := {
  strategy : T;
  defaultConfig : RateLimitConfig;
  keyGenerator : string -> option string -> string;
  onError : bool;
}.
Arguments strategy {T} _.
Arguments defaultConfig {T} _.
Arguments keyGenerator {T} _ _ _.
Arguments onError {T} _.

(** What a limiter call can change: the storage it owns, its bypass list,
    and what the error callback and the logger have been given so far. *)
Record LimiterState (S : Type) := {
  storage : S;
  bypassList : gset string;
  onErrorCalls : list Error;
  loggedErrors : list string;
}.
Arguments storage {S} _.
Arguments bypassList {S} _.
Arguments onErrorCalls {S} _.
Arguments loggedErrors {S} _.

Module Limiter.

(** A character that the class [a-zA-Z0-9._-] accepts. *)
Definition isSafeChar (c : ascii) : bool :=
  let n := N_of_ascii c in
  ((97 <=? n) && (n <=? 122) || (65 <=? n) && (n <=? 90)
   || (48 <=? n) && (n <=? 57)
   || (n =? 46) || (n =? 95) || (n =? 45))%N.

(** [identifier.replace(/[^a-zA-Z0-9._-]/g, "_")] *)
Fixpoint sanitizeIdentifier (identifier : string) : string :=
  match identifier with
  | EmptyString => EmptyString
  | String c rest =>
      String (if isSafeChar c then c else "_"%char) (sanitizeIdentifier rest)
  end.

(** [namespace ? `${namespace}:${identifier}` : identifier]; the empty
    string is falsy. *)
Definition defaultKeyGenerator (identifier : string)
    (namespace : option string) : string :=
  match namespace with
  | Some ns =>
      if decide (ns = ""%string) then identifier
      else (ns +:+ ":" +:+ identifier)%string
  | None => identifier
  end.

(** [{ ...defaultConfig, ...config }] *)
Definition mergeConfig (dflt : RateLimitConfig) (config : option PartialConfig)
  : RateLimitConfig :=
  match config with
  | None => dflt
  | Some o =>
      {| points := default (points dflt) (override_points o);
         duration := default (duration dflt) (override_duration o);
         blockDuration :=
           match override_blockDuration o with
           | Some b => Some b
           | None => blockDuration dflt
           end;
         keyPrefix :=
           match override_keyPrefix o with
           | Some p => Some p
           | None => keyPrefix dflt
           end;
         consumeOnFailure :=
           match override_consumeOnFailure o with
           | Some b => Some b
           | None => consumeOnFailure dflt
           end |}
  end.

Definition toString (e : Error) : string :=
  match e with mkError m => ("Error: " +:+ m)%string end.

Section WithStrategy.
Context {T S : Type} `{IRateLimitStrategy T S}.

Definition init (st : S) : LimiterState S :=
  {| storage := st; bypassList := ∅; onErrorCalls := []; loggedErrors := [] |}.

(** A call on the strategy, which runs on the storage that the limiter owns. *)
Definition on_storage {A} (m : Async S A) : Async (LimiterState S) A :=
  fun st =>
    let '(r, s') := m (storage st) in
    (r, {| storage := s';
           bypassList := bypassList st;
           onErrorCalls := onErrorCalls st;
           loggedErrors := loggedErrors st |}).

Definition shouldBypass (identifier : string)
  : Async (LimiterState S) bool :=
  fun st => (inr (bool_decide (identifier ∈ bypassList st)), st).

Definition addBypass (identifier : string) (st : LimiterState S)
  : LimiterState S :=
  {| storage := storage st;
     bypassList := {[identifier]} ∪ bypassList st;
     onErrorCalls := onErrorCalls st;
     loggedErrors := loggedErrors st |}.

Definition removeBypass (identifier : string) (st : LimiterState S)
  : LimiterState S :=
  {| storage := storage st;
     bypassList := bypassList st ∖ {[identifier]};
     onErrorCalls := onErrorCalls st;
     loggedErrors := loggedErrors st |}.

(** [this.logger.errorWithContext(this.ctx, message)] *)
Definition logError (message : string) : Async (LimiterState S) unit :=
  fun st =>
    (inr tt, {| storage := storage st;
                bypassList := bypassList st;
                onErrorCalls := onErrorCalls st;
                loggedErrors := loggedErrors st ++ [message] |}).

(** [if (this.onError) this.onError(error)] *)
Definition reportError (self : RateLimiter T) (error : Error)
  : Async (LimiterState S) unit :=
  fun st =>
    if onError self
    then (inr tt, {| storage := storage st;
                     bypassList := bypassList st;
                     onErrorCalls := onErrorCalls st ++ [error];
                     loggedErrors := loggedErrors st |})
    else (inr tt, st).

(** The result of a call that failed open. *)
Definition failOpen (self : RateLimiter T) (now : number) : RateLimitResult :=
  {| allowed := true;
     remaining := points (defaultConfig self);
     limit := points (defaultConfig self);
     resetAt := now + duration (defaultConfig self) * 1000;
     retryAfter := 0;
     result_consumed := 0;
     isBlocked := None |}.

(** The result for an identifier on the bypass list. *)
Definition bypassResult (now : number) : RateLimitResult :=
  {| allowed := true;
     remaining := 999999;
     limit := 999999;
     resetAt := now + 999999;
     retryAfter := 0;
     result_consumed := 0;
     isBlocked := None |}.

(** [pts] is the optional [points] argument, 1 when left out. *)
Definition consume (self : RateLimiter T) (now : number)
    (identifier : string) (pts : option number)
    (config : option PartialConfig) (namespace : option string)
  : Async (LimiterState S) RateLimitResult :=
  try_catch
    (let safeIdentifier := sanitizeIdentifier identifier in
     await bypass <- shouldBypass safeIdentifier ;;
     if bypass then ret (bypassResult now)
     else
       let key := keyGenerator self safeIdentifier namespace in
       let finalConfig := mergeConfig (defaultConfig self) config in
       on_storage
         (strategy_consume (strategy self) now key (default 1 pts)
            finalConfig))
    (fun error =>
       await_ logError ("RateLimter.consume error: " +:+ toString error) ;;
       await_ reportError self error ;;
       ret (failOpen self now)).

Definition getStatus (self : RateLimiter T) (now : number)
    (identifier : string) (config : option PartialConfig)
    (namespace : option string) : Async (LimiterState S) RateLimitResult :=
  try_catch
    (let safeIdentifier := sanitizeIdentifier identifier in
     let key := keyGenerator self safeIdentifier namespace in
     let finalConfig := mergeConfig (defaultConfig self) config in
     on_storage (strategy_getStatus (strategy self) now key finalConfig))
    (fun error =>
       await_ reportError self error ;;
       ret (failOpen self now)).

Definition reset (self : RateLimiter T) (identifier : string)
    (namespace : option string) : Async (LimiterState S) unit :=
  let safeIdentifier := sanitizeIdentifier identifier in
  let key := keyGenerator self safeIdentifier namespace in
  on_storage (strategy_reset (strategy self) key).

Definition block (self : RateLimiter T) (now : number)
    (identifier : string) (duration : number) (namespace : option string)
  : Async (LimiterState S) unit :=
  let safeIdentifier := sanitizeIdentifier identifier in
  let key := keyGenerator self safeIdentifier namespace in
  on_storage (strategy_block (strategy self) now key duration).

Definition isBlocked (self : RateLimiter T) (now : number)
    (identifier : string) (namespace : option string)
  : Async (LimiterState S) bool :=
  let safeIdentifier := sanitizeIdentifier identifier in
  let key := keyGenerator self safeIdentifier namespace in
  on_storage (strategy_isBlocked (strategy self) now key).

(** [isHealthy()] asks the storage, which the strategy's state is. *)
Definition isHealthy `{IRateLimitStorage S} : Async (LimiterState S) bool :=
  on_storage storage_isHealthy.

End WithStrategy.

(** [new RateLimiter(ctx, options)] with the token-bucket strategy that
    the constructor creates when [options.strategy] is left out. *)
Definition new (defaultConfig : option RateLimitConfig)
    (keyGenerator : option (string -> option string -> string))
    (onError : bool) : RateLimiter TokenBucketStrategy :=
  {| strategy := TokenBucket.new None;
     defaultConfig :=
       default {| points := 5;
                  duration := 60;
                  blockDuration := None;
                  keyPrefix := Some "rl"%string;
                  consumeOnFailure := None |} defaultConfig;
     keyGenerator := default defaultKeyGenerator keyGenerator;
     onError := onError |}.

End Limiter.

(** ** Trace and request identifiers (utils/trace-id.util.ts,
       api/middlewares/context.middleware.ts) *)

Module TraceId.

(** The class [a-z0-9]. *)
Definition isLowerAlnum (c : ascii) : bool :=
  let n := N_of_ascii c in
  ((97 <=? n) && (n <=? 122) || (48 <=? n) && (n <=? 57))%N.

(** The class [a-zA-Z0-9_-], which is also the alphabet of [nanoid]. *)
Definition isUrlSafe (c : ascii) : bool :=
  let n := N_of_ascii c in
  ((97 <=? n) && (n <=? 122) || (65 <=? n) && (n <=? 90)
   || (48 <=? n) && (n <=? 57) || (n =? 95) || (n =? 45))%N.

Fixpoint all (p : ascii -> bool) (s : string) : bool :=
  match s with
  | EmptyString => true
  | String c rest => p c && all p rest
  end.

(** The longest prefix whose characters satisfy [p], and what follows. *)
Fixpoint span (p : ascii -> bool) (s : string) : string * string :=
  match s with
  | EmptyString => (EmptyString, EmptyString)
  | String c rest =>
      if p c then let (a, b) := span p rest in (String c a, b)
      else (EmptyString, s)
  end.

(** [/^tr_[a-z0-9]+_[a-zA-Z0-9_-]+$/.test(traceId)].  The first class has
    no "_", so the first group is the longest run of [a-z0-9] after
    "tr_" and the separator is the character that ends it. *)
Definition isValidTraceId (traceId : string) : bool :=
  match traceId with
  | String c1 (String c2 (String c3 rest)) =>
      Ascii.eqb c1 "t" && Ascii.eqb c2 "r" && Ascii.eqb c3 "_"
      && match span isLowerAlnum rest with
         | (String _ _, String sep (String c tail)) =>
             Ascii.eqb sep "_" && all isUrlSafe (String c tail)
         | _ => false
         end
  | _ => false
  end.

(** A digit of [Number.prototype.toString(36)]: 0-9, then a-z. *)
Definition digit36 (d : N) : ascii :=
  if (d <? 10)%N then ascii_of_N (48 + d) else ascii_of_N (87 + d).

Fixpoint toString36_go (fuel : nat) (n : N) (acc : string) : string :=
  match fuel with
  | O => acc
  | Datatypes.S fuel' =>
      let acc' := String (digit36 (n mod 36)) acc in
      if (n / 36 =? 0)%N then acc' else toString36_go fuel' (n / 36) acc'
  end.

(** [n.toString(36)] for a non-negative integer [n]; a number has no more
    base-36 digits than bits. *)
Definition toString36 (n : N) : string :=
  toString36_go (Datatypes.S (N.to_nat (N.log2 n))) n EmptyString.

(** [generateTraceId()], given the clock reading and what [nanoid(10)]
    returns. *)
Definition generateTraceId (now : N) (random : string) : string :=
  ("tr_" +:+ toString36 now +:+ "_" +:+ random)%string.

Definition generateRequestId (now : N) (random : string) : string :=
  ("req_" +:+ toString36 now +:+ "_" +:+ random)%string.

(** The trace id that [contextMiddleware] puts into the request context:
    [traceIdHeader && isValidTraceId(traceIdHeader) ? traceIdHeader :
    generateTraceId()]. *)
Definition selectTraceId (traceIdHeader : option string) (now : N)
    (random : string) : string :=
  match traceIdHeader with
  | Some h =>
      if negb (String.eqb h "") && isValidTraceId h then h
      else generateTraceId now random
  | None => generateTraceId now random
  end.

End TraceId.

(** ** JavaScript values and objects *)

(** A value of type [any].  An object under construction is a finite map
    from property names to values; a spread [{...a, ...b}] is the union in
    which [b] wins. *)
#[warnings="-register-all"] Inductive JsValue :=
| JsUndefined
| JsNull
| JsBoolean (b : bool)
| JsNumber (n : number)
| JsString (s : string)
| JsArray (items : list JsValue)
| JsObject (fields : list (string * JsValue)).

Definition spread (earlier later : gmap string JsValue) : gmap string JsValue :=
  later ∪ earlier.

(** [a || b] on strings that may be undefined: the empty string is falsy. *)
Definition strOr (a b : option string) : option string :=
  match a with
  | Some x => if String.eqb x "" then b else Some x
  | None => b
  end.

Definition jsOfString (s : option string) : JsValue :=
  match s with Some x => JsString x | None => JsUndefined end.

(** ** Request context (types/context.types.ts) *)

Record RequestContext := {
  traceId : string;
  userId : option string;
  requestId : string;
  startTime : number;
  ip : option string;
  userAgent : option string;
}.

(** ** Console logger (core/logger/console.logger.ts) *)

Module ConsoleLogger.

(** The own properties of a context object, as a spread sees them. *)
Definition contextFields (ctx : RequestContext) : gmap string JsValue :=
  let optional (name : string) (v : option string)
        (m : gmap string JsValue) :=
    match v with Some x => <[name := JsString x]> m | None => m end in
  optional "userId"%string (userId ctx)
    (optional "ip"%string (ip ctx)
       (optional "userAgent"%string (userAgent ctx)
          (<["traceId"%string := JsString (traceId ctx)]>
             (<["requestId"%string := JsString (requestId ctx)]>
                (<["startTime"%string := JsNumber (startTime ctx)]> ∅))))).

(** [{ message, ...meta }] *)
Definition formatMessage (message : string)
    (meta : option (gmap string JsValue)) : gmap string JsValue :=
  spread {["message"%string := JsString message]} (default ∅ meta).

(** [{ message, ...meta, ...ctx }] *)
Definition formatMessageWithContext (ctx : RequestContext) (message : string)
    (meta : option (gmap string JsValue)) : gmap string JsValue :=
  spread (spread {["message"%string := JsString message]} (default ∅ meta))
    (contextFields ctx).

End ConsoleLogger.

(** ** Response builder (core/response/response.builder.ts) *)

Record ValidationError := {
  field : string;
  error_message : string;
  error_code : option string;
  value : option JsValue;
}.

Record PaginationMeta := {
  page : number;
  page_limit : number;
  total : number;
  totalPages : number;
  hasNextPage : bool;
  hasPreviousPage : bool;
}.

Record ResponseOptions := {
  option_status : option number;
  option_headers : option (gmap string string);
  option_meta : option (gmap string JsValue);
}.

(** The object that [JSON.stringify] is given; serialization itself is
    not modelled. *)
Inductive Body :=
| SuccessBody (data : JsValue) (meta : gmap string JsValue)
| FailBody (message : string) (errors : option (list ValidationError))
    (meta : gmap string JsValue)
| ErrorBody (message : string) (code : option string)
    (details : option JsValue) (meta : gmap string JsValue)
| PaginatedBody (data : list JsValue) (pagination : PaginationMeta)
    (meta : gmap string JsValue).

(** A [Response]: status, the header object it was built from, and the
    body ([None] for [new Response(null, ...)]). *)
Record Response := {
  status : number;
  headers : gmap string string;
  body : option Body;
}.

(** What the builder reads of the Hono context: the request context stored
    under [reqCtx], if any, and the request headers. *)
Record Context := {
  ctx_reqCtx : option RequestContext;
  ctx_headers : gmap string string;
}.

Module ResponseBuilder.
Section WithClock.
(** [Date.now()], [new Date().toISOString()] and
    [Number.prototype.toString]. *)
Variables (now : number) (isoNow : string) (numberToString : number -> string).

(** [buildMeta]: reading [ctx.startTime] of a missing context throws. *)
Definition buildMeta (c : Context) (additional : option (gmap string JsValue))
  : Error + gmap string JsValue :=
  match ctx_reqCtx c with
  | None => inl (mkError "TypeError: Cannot read properties of undefined")
  | Some ctx =>
      let startTime :=
        if Num.truthy (startTime ctx) then startTime ctx else now in
      inr (spread
             (<["traceId"%string :=
                  jsOfString (strOr (Some (traceId ctx))
                                (ctx_headers c !! "x-trace-id"%string))]>
                (<["requestId"%string :=
                     jsOfString (strOr (Some (requestId ctx))
                                   (ctx_headers c !! "x-request-id"%string))]>
                   (<["timestamp"%string := JsString isoNow]>
                      (<["duration"%string := JsNumber (now - startTime)]> ∅))))
             (default ∅ additional))
  end.

Definition buildHeaders (c : Context) (additional : option (gmap string string))
  : gmap string string :=
  default ∅ additional
  ∪ <["Content-Type"%string := "application/json"%string]>
      (<["X-Trace-Id"%string :=
           default ""%string
             (strOr (traceId <$> ctx_reqCtx c) (Some ""%string))]>
         (<["X-Request-Id"%string :=
              default ""%string
                (strOr (requestId <$> ctx_reqCtx c) (Some ""%string))]> ∅)).

Definition json (c : Context) (b : Body) (st : number)
    (hs : option (gmap string string)) : Response :=
  {| status := st; headers := buildHeaders c hs; body := Some b |}.

(** [options?.status || dflt] *)
Definition statusOr (options : option ResponseOptions) (dflt : number)
  : number :=
  Num.or_else (options ≫= option_status) dflt.

(** [{ ...options, status: st }] *)
Definition withStatus (options : option ResponseOptions) (st : number)
  : option ResponseOptions :=
  Some {| option_status := Some st;
          option_headers := options ≫= option_headers;
          option_meta := options ≫= option_meta |}.

Definition success (c : Context) (data : JsValue)
    (options : option ResponseOptions) : Error + Response :=
  match buildMeta c (options ≫= option_meta) with
  | inl e => inl e
  | inr meta =>
      inr (json c (SuccessBody data meta) (statusOr options 200)
             (options ≫= option_headers))
  end.

Definition created (c : Context) (data : JsValue)
    (options : option ResponseOptions) : Error + Response :=
  success c data (withStatus options 201).

Definition accepted (c : Context) (data : JsValue)
    (options : option ResponseOptions) : Error + Response :=
  success c data (withStatus options 202).

Definition noContent (c : Context) : Response :=
  {| status := 204; headers := buildHeaders c None; body := None |}.

Definition fail (c : Context) (message : string)
    (errors : option (list ValidationError))
    (options : option ResponseOptions) : Error + Response :=
  match buildMeta c (options ≫= option_meta) with
  | inl e => inl e
  | inr meta =>
      inr (json c (FailBody message errors meta) (statusOr options 400)
             (options ≫= option_headers))
  end.

Definition error (c : Context) (message : string) (code : option string)
    (details : option JsValue) (options : option ResponseOptions)
  : Error + Response :=
  match buildMeta c (options ≫= option_meta) with
  | inl e => inl e
  | inr meta =>
      inr (json c (ErrorBody message code details meta) (statusOr options 500)
             (options ≫= option_headers))
  end.

Definition paginated (c : Context) (data : list JsValue)
    (pagination : PaginationMeta) (options : option ResponseOptions)
  : Error + Response :=
  match buildMeta c (options ≫= option_meta) with
  | inl e => inl e
  | inr meta =>
      inr (json c (PaginatedBody data pagination meta) (statusOr options 200)
             (options ≫= option_headers))
  end.

Definition onlyStatus (st : number) (hs : option (gmap string string))
  : option ResponseOptions :=
  Some {| option_status := Some st; option_headers := hs;
          option_meta := None |}.

Definition validationError (c : Context) (errors : list ValidationError)
    (message : option string) : Error + Response :=
  fail c (default "Validation failed"%string message) (Some errors)
    (onlyStatus 422 None).

Definition notFound (c : Context) (message : option string)
  : Error + Response :=
  fail c (default "Resource not found"%string message) None
    (onlyStatus 404 None).

Definition unauthorized (c : Context) (message : option string)
  : Error + Response :=
  fail c (default "Unauthorized"%string message) None (onlyStatus 401 None).

Definition forbidden (c : Context) (message : option string)
  : Error + Response :=
  fail c (default "Forbidden"%string message) None (onlyStatus 403 None).


(** [retryAfter ? { 'Retry-After': retryAfter.toString() } : undefined] *)
Definition rateLimited (c : Context) (retryAfter : option number)
    (message : option string) : Error + Response :=
  let hs :=
    match retryAfter with
    | Some ra =>
        if Num.truthy ra
        then Some {["Retry-After"%string := numberToString ra]}
        else None
    | None => None
    end in
  fail c (default "Too many requests"%string message) None (onlyStatus 429 hs).

Definition serverError (c : Context) (message : option string)
    (code : option string) : Error + Response :=
  error c (default "Internal server error"%string message) code None
    (onlyStatus 500 None).

Definition serviceUnavailable (c : Context) (message : option string)
  : Error + Response :=
  error c (default "Service temporarily unavailable"%string message)
    (Some "SERVICE_UNAVAILABLE"%string) None (onlyStatus 503 None).

End WithClock.
End ResponseBuilder.


(** ** Test doubles for the storage interface *)

(** A recording wrapper around any backend: it notes every call that
    reaches the storage interface and forwards it. *)
Inductive StorageCall :=
| CallGet (key : string)
| CallSet (key : string) (d : RateLimitData) (ttl : number)
| CallDelete (key : string)
| CallIsHealthy.

Record Spy (S : Type) := {
  calls : list StorageCall;
  spied : S;
}.
Arguments calls {S} _.
Arguments spied {S} _.

Definition spy_on {S A} (c : StorageCall) (m : Async S A) : Async (Spy S) A :=
  fun sp =>
    let '(r, s') := m (spied sp) in
    (r, {| calls := calls sp ++ [c]; spied := s' |}).

#[export] Instance spy_storage {S} `{IRateLimitStorage S}
  : IRateLimitStorage (Spy S) := {
  storage_get now key := spy_on (CallGet key) (storage_get now key);
  storage_set now key d ttl :=
    spy_on (CallSet key d ttl) (storage_set now key d ttl);
  storage_delete key := spy_on (CallDelete key) (storage_delete key);
  storage_isHealthy := spy_on CallIsHealthy storage_isHealthy;
}.

(** A backend that can be forced to error on [get] or on [set]. *)
Record Faulty (S : Type) := {
  failGet : bool;
  failSet : bool;
  backend : S;
}.
Arguments failGet {S} _.
Arguments failSet {S} _.
Arguments backend {S} _.

Definition on_backend {S A} (m : Async S A) : Async (Faulty S) A :=
  fun f =>
    let '(r, s') := m (backend f) in
    (r, {| failGet := failGet f; failSet := failSet f; backend := s' |}).

#[export] Instance faulty_storage {S} `{IRateLimitStorage S}
  : IRateLimitStorage (Faulty S) := {
  storage_get now key := fun f =>
    if failGet f then throw (mkError "storage get failed") f
    else on_backend (storage_get now key) f;
  storage_set now key d ttl := fun f =>
    if failSet f then throw (mkError "storage set failed") f
    else on_backend (storage_set now key d ttl) f;
  storage_delete key := on_backend (storage_delete key);
  storage_isHealthy := on_backend storage_isHealthy;
}.

(** A backend that is down: every call throws. *)
Inductive Broken := BrokenStorage.

#[export] Instance broken_storage : IRateLimitStorage Broken := {
  storage_get _ _ := throw (mkError "storage unavailable");
  storage_set _ _ _ _ := throw (mkError "storage unavailable");
  storage_delete _ := throw (mkError "storage unavailable");
  storage_isHealthy := ret false;
}.

(** ** Call sequences *)

Module Scenario.
Section WithStorage.
Context {S : Type} `{IRateLimitStorage S}.

(** The bucket that [consume] works on after loading: the stored record,
    or a full bucket when storage has none. *)
Definition loaded (stored : option RateLimitData) (config : RateLimitConfig)
    (now : number) : RateLimitData :=
  match stored with
  | Some d => d
  | None => TokenBucket.fresh config now
  end.

(** [n] calls of [consume] in immediate succession, all reading the same
    clock value; the results are listed in call order. *)
Fixpoint consumeTimes (n : nat) (self : TokenBucketStrategy) (now : number)
    (identifier : string) (pts : number) (config : RateLimitConfig)
  : Async S (list RateLimitResult) :=
  match n with
  | O => ret []
  | Datatypes.S n' =>
      await r <- TokenBucket.consume self now identifier pts config ;;
      await rs <- consumeTimes n' self now identifier pts config ;;
      ret (r :: rs)
  end.

(** One call on the strategy. *)
Inductive Op :=
| OpConsume (identifier : string) (pts : number)
| OpGetStatus (identifier : string)
| OpBlock (identifier : string) (duration : number)
| OpReset (identifier : string)
| OpIsBlocked (identifier : string).

Definition step (self : TokenBucketStrategy) (config : RateLimitConfig)
    (now : number) (op : Op) : Async S unit :=
  match op with
  | OpConsume identifier pts =>
      await_ TokenBucket.consume self now identifier pts config ;; ret tt
  | OpGetStatus identifier =>
      await_ TokenBucket.getStatus self now identifier config ;; ret tt
  | OpBlock identifier duration =>
      TokenBucket.block self now identifier duration
  | OpReset identifier => TokenBucket.reset self identifier
  | OpIsBlocked identifier =>
      await_ TokenBucket.isBlocked self now identifier ;; ret tt
  end.

(** A sequence of calls, each with the clock value it reads. *)
Fixpoint run (self : TokenBucketStrategy) (config : RateLimitConfig)
    (ops : list (number * Op)) : Async S unit :=
  match ops with
  | [] => ret tt
  | (now, op) :: rest =>
      await_ step self config now op ;; run self config rest
  end.

End WithStorage.

(** What [consume] returns on the rejecting branch once the record
    handed to storage is [d]. *)
Definition rejectedResult (now pts : number) (config : RateLimitConfig)
    (d : RateLimitData) : RateLimitResult :=
  let retryAfter :=
    Math.ceil ((pts - tokens d) / TokenBucket.getRefillRate config) in
  {| allowed := false;
     remaining := Math.floor (tokens d);
     limit := points config;
     resetAt := now + retryAfter * 1000;
     retryAfter := retryAfter;
     result_consumed := consumed d;
     isBlocked := None |}.

(** The record that the accepting branch persists. *)
Definition spent (pts : number) (d : RateLimitData) : RateLimitData :=
  {| tokens := tokens d - pts;
     lastRefill := lastRefill d;
     consumed := consumed d + pts;
     blockUntil := blockUntil d |}.

(** What [consume] returns on the accepting branch once the record
    handed to storage is [d]. *)
Definition acceptedResult (now : number) (config : RateLimitConfig)
    (d : RateLimitData) : RateLimitResult :=
  {| allowed := true;
     remaining := Math.floor (tokens d);
     limit := points config;
     resetAt :=
       Math.floor
         (now + (points config - tokens d)
                / TokenBucket.getRefillRate config * 1000);
     retryAfter := 0;
     result_consumed := consumed d;
     isBlocked := None |}.

(** The same call made [n] times in a row; the results are listed in
    call order. *)
Fixpoint repeatCall {St A : Type} (n : nat) (m : Async St A)
  : Async St (list A) :=
  match n with
  | O => ret []
  | Datatypes.S n' =>
      await r <- m ;;
      await rs <- repeatCall n' m ;;
      ret (r :: rs)
  end.

(** The identifier that a call is about. *)
Definition target (op : Op) : string :=
  match op with
  | OpConsume identifier _ => identifier
  | OpGetStatus identifier => identifier
  | OpBlock identifier _ => identifier
  | OpReset identifier => identifier
  | OpIsBlocked identifier => identifier
  end.

(** The clock never runs backwards: every call reads a value that is not
    below the previous one, starting from [t]. *)
Fixpoint clockOrdered (t : number) (ops : list (number * Op)) : Prop :=
  match ops with
  | [] => True
  | (now, _) :: rest => t <= now /\ clockOrdered now rest
  end.

(** Every [consume] of the sequence asks for a non-negative cost. *)
Definition costOk (op : Op) : Prop :=
  match op with
  | OpConsume _ pts => 0 <= pts
  | _ => True
  end.

(** Every record in the cache respects the capacity of [config] and was
    refilled no later than [t]. *)
Definition cacheWithin (config : RateLimitConfig) (t : number)
    (st : MemoryRateLimitStorage) : Prop :=
  forall k e, cache st !! k = Some e ->
    0 <= tokens (data e) /\ tokens (data e) <= points config
    /\ lastRefill (data e) <= t.

(** The in-memory backend presents, for [identifier] at clock value
    [now], an unblocked bucket with balance [t] that was refilled at
    [now] (a stored record, or none at all, which stands for a full
    bucket). *)
Definition balance (self : TokenBucketStrategy) (now : number)
    (identifier : string) (config : RateLimitConfig) (t : number)
    (st : MemoryRateLimitStorage) : Prop :=
  exists stored s1,
    Memory.get now (TokenBucket.buildKey self identifier) st
    = (inr stored, s1)
    /\ tokens (loaded stored config now) == t
    /\ lastRefill (loaded stored config now) = now
    /\ blockUntil (loaded stored config now) = None.

(** Two backends with the same prefix whose entries differ at most under
    the full key [fullKey]. *)
Definition sameElsewhere (fullKey : string)
    (st st1 : MemoryRateLimitStorage) : Prop :=
  storage_keyPrefix st1 = storage_keyPrefix st
  /\ forall k, k <> fullKey -> cache st1 !! k = cache st !! k.

End Scenario.

(** ** Concrete scenarios *)

Module Demo.

Definition tb : TokenBucketStrategy := TokenBucket.new None.

Definition empty : MemoryRateLimitStorage := Memory.new None.

(** 10 points per 10 seconds: one token per second. *)
Definition config10 : RateLimitConfig :=
  {| points := 10;
     duration := 10;
     blockDuration := None;
     keyPrefix := None;
     consumeOnFailure := None |}.

(** One point per minute, 30 seconds of block on exhaustion. *)
Definition blockingConfig : RateLimitConfig :=
  {| points := 1;
     duration := 60;
     blockDuration := Some 30;
     keyPrefix := None;
     consumeOnFailure := None |}.

Definition resultOf (out : Error + RateLimitResult) : RateLimitResult :=
  match out with
  | inr r => r
  | inl _ =>
      {| allowed := false;
         remaining := 0;
         limit := 0;
         resetAt := 0;
         retryAfter := 0;
         result_consumed := 0;
         isBlocked := None |}
  end.

(** The backend after ten calls at clock value 1000 have emptied the
    bucket of "alice" under [config10], and the record it then holds. *)
Definition drained : MemoryRateLimitStorage :=
  (Scenario.consumeTimes 10 tb 1000 "alice" 1 config10 empty).2.

Definition drainedRecord : RateLimitData :=
  match (Memory.get 6000 (TokenBucket.buildKey tb "alice") drained).1 with
  | inr (Some d) => d
  | _ => TokenBucket.fresh config10 6000
  end.

(** Under [blockingConfig]: the backend after the one affordable call at
    clock value 1000, then the second call at the same instant, which is
    rejected, with the backend and the record it leaves. *)
Definition spentOnce : MemoryRateLimitStorage :=
  (TokenBucket.consume tb 1000 "alice" 1 blockingConfig empty).2.

Definition rejected : RateLimitResult :=
  resultOf (TokenBucket.consume tb 1000 "alice" 1 blockingConfig spentOnce).1.

Definition blocked : MemoryRateLimitStorage :=
  (TokenBucket.consume tb 1000 "alice" 1 blockingConfig spentOnce).2.

Definition blockedRecord : RateLimitData :=
  match (Memory.get 20000 (TokenBucket.buildKey tb "alice") blocked).1 with
  | inr (Some d) => d
  | _ => TokenBucket.fresh blockingConfig 20000
  end.

(** A limiter with a registered error callback over a backend whose
    [get] is forced to error. *)
Definition limiter : RateLimiter TokenBucketStrategy :=
  Limiter.new None None true.

Definition faulty : LimiterState (Faulty MemoryRateLimitStorage) :=
  Limiter.init {| failGet := true; failSet := false; backend := empty |}.

Definition calls : list (number * Scenario.Op) :=
  [(1000, Scenario.OpConsume "alice" 1);
   (1000, Scenario.OpConsume "alice" 1);
   (2000, Scenario.OpGetStatus "alice");
   (3000, Scenario.OpBlock "bob" 30);
   (4000, Scenario.OpReset "alice");
   (4000, Scenario.OpIsBlocked "bob");
   (90000, Scenario.OpConsume "bob" (1 # 2))].

End Demo.

(** * Properties *)

(** ** Numbers *)

Lemma ltb_lt (a b : number) : Num.ltb a b = true <-> a < b.
Proof.
  unfold Num.ltb. rewrite negb_true_iff, <- not_true_iff_false, Qle_bool_iff.
  split; [apply Qnot_le_lt | apply Qlt_not_le].
Qed.

Lemma ltb_ge (a b : number) : Num.ltb a b = false <-> b <= a.
Proof.
  unfold Num.ltb. rewrite negb_false_iff. apply Qle_bool_iff.
Qed.

Lemma truthy_neq (a : number) : Num.truthy a = true <-> ~ a == 0.
Proof.
  unfold Num.truthy. rewrite negb_true_iff, <- not_true_iff_false, Qeq_bool_iff.
  reflexivity.
Qed.

Lemma truthy_pos (a : number) : 0 < a -> Num.truthy a = true.
Proof. intros Ha. apply truthy_neq. lra. Qed.

Lemma floor_int (x : number) (z : Z) : x == inject_Z z -> Math.floor x = inject_Z z.
Proof.
  intros Hx. unfold Math.floor. f_equal.
  rewrite (Qfloor_comp _ _ Hx). apply Qfloor_Z.
Qed.

Lemma min_cases (a b : number) :
  (a <= b /\ Math.min a b == a) \/ (b <= a /\ Math.min a b == b).
Proof.
  unfold Math.min. destruct (Q.min_spec a b) as [[Hlt He]|[Hle He]].
  - left. split; [lra | exact He].
  - right. split; [exact Hle | exact He].
Qed.

(** ** The token-bucket strategy over any storage *)

Section StrategyFacts.
Context {S : Type} `{IRateLimitStorage S}.
Variables (self : TokenBucketStrategy) (now : number) (identifier : string).
Variables (pts : number) (config : RateLimitConfig).

Local Abbreviation key := (TokenBucket.buildKey self identifier).
Local Abbreviation bucket stored := (Scenario.loaded stored config now).
Local Abbreviation refilled stored :=
  (TokenBucket.refillTokens (Scenario.loaded stored config now) config now).
Local Abbreviation rejectedResult := (Scenario.rejectedResult now pts config).
Local Abbreviation acceptedResult := (Scenario.acceptedResult now config).
Local Abbreviation spent := (Scenario.spent pts).

Lemma consume_get_throws s e s1 :
  storage_get now key s = (inl e, s1) ->
  TokenBucket.consume self now identifier pts config s = (inl e, s1).
Proof.
  intros Hget. unfold TokenBucket.consume, bind. rewrite Hget. reflexivity.
Qed.

Lemma consume_blocked s stored s1 :
  storage_get now key s = (inr stored, s1) ->
  TokenBucket.blockedAt (bucket stored) now = true ->
  TokenBucket.consume self now identifier pts config s
  = (inr (TokenBucket.blockedResult (bucket stored) config now), s1).
Proof.
  intros Hget Hb. unfold TokenBucket.consume, bind. rewrite Hget.
  unfold Scenario.loaded in Hb. rewrite Hb. reflexivity.
Qed.

Lemma consume_rejected s stored s1 :
  storage_get now key s = (inr stored, s1) ->
  TokenBucket.blockedAt (bucket stored) now = false ->
  Num.ltb (tokens (refilled stored)) pts = true ->
  TokenBucket.consume self now identifier pts config s
  = bind
      (storage_set now key
         (TokenBucket.applyBlock (refilled stored) config now)
         (duration config + Num.or_else (blockDuration config) 60))
      (fun _ =>
         ret (rejectedResult
                (TokenBucket.applyBlock (refilled stored) config now)))
      s1.
Proof.
  intros Hget Hb Hlt. unfold TokenBucket.consume at 1. unfold bind at 1.
  rewrite Hget. unfold Scenario.loaded in Hb, Hlt. rewrite Hb, Hlt.
  unfold Scenario.rejectedResult, Scenario.loaded.
  assert (Ht : forall d, tokens (TokenBucket.applyBlock d config now) = tokens d).
  { intros d. unfold TokenBucket.applyBlock.
    destruct (blockDuration config) as [bd|]; [destruct (Num.truthy bd)|];
      reflexivity. }
  rewrite Ht. reflexivity.
Qed.

Lemma consume_accepted s stored s1 :
  storage_get now key s = (inr stored, s1) ->
  TokenBucket.blockedAt (bucket stored) now = false ->
  Num.ltb (tokens (refilled stored)) pts = false ->
  TokenBucket.consume self now identifier pts config s
  = bind
      (storage_set now key (spent (refilled stored)) (duration config))
      (fun _ => ret (acceptedResult (spent (refilled stored))))
      s1.
Proof.
  intros Hget Hb Hlt. unfold TokenBucket.consume at 1. unfold bind at 1.
  rewrite Hget. unfold Scenario.loaded in Hb, Hlt. rewrite Hb, Hlt.
  reflexivity.
Qed.

Lemma applyBlock_tokens d :
  tokens (TokenBucket.applyBlock d config now) = tokens d.
Proof.
  unfold TokenBucket.applyBlock.
  destruct (blockDuration config) as [bd|]; [destruct (Num.truthy bd)|];
    reflexivity.
Qed.

Lemma applyBlock_lastRefill d :
  lastRefill (TokenBucket.applyBlock d config now) = lastRefill d.
Proof.
  unfold TokenBucket.applyBlock.
  destruct (blockDuration config) as [bd|]; [destruct (Num.truthy bd)|];
    reflexivity.
Qed.

Lemma applyBlock_escalates d bd :
  blockDuration config = Some bd -> Num.truthy bd = true ->
  blockUntil (TokenBucket.applyBlock d config now) = Some (now + bd * 1000).
Proof.
  intros Hbd Ht. unfold TokenBucket.applyBlock. rewrite Hbd, Ht. reflexivity.
Qed.

Lemma blockedAt_inv d :
  TokenBucket.blockedAt d now = true ->
  exists b, blockUntil d = Some b /\ Num.truthy b = true /\ now < b.
Proof.
  unfold TokenBucket.blockedAt. destruct (blockUntil d) as [b|]; [|discriminate].
  intros [Ht Hlt]%andb_true_iff. exists b. repeat split; [exact Ht|].
  apply ltb_lt. exact Hlt.
Qed.

Lemma blockedAt_future d b :
  blockUntil d = Some b -> now < b -> 0 <= now ->
  TokenBucket.blockedAt d now = true.
Proof.
  intros Hb Hlt Hnow. unfold TokenBucket.blockedAt. rewrite Hb.
  apply andb_true_iff. split; [apply truthy_pos; lra | apply ltb_lt; exact Hlt].
Qed.

Lemma blockedAt_fresh : TokenBucket.blockedAt (TokenBucket.fresh config now) now = false.
Proof. reflexivity. Qed.

(** The three ways in which [consume] proceeds once [get] has answered. *)
Lemma consume_cases s out s' :
  TokenBucket.consume self now identifier pts config s = (out, s') ->
  (exists e, storage_get now key s = (inl e, s') /\ out = inl e)
  \/ exists stored s1,
       storage_get now key s = (inr stored, s1)
       /\ ((TokenBucket.blockedAt (bucket stored) now = true
            /\ out = inr (TokenBucket.blockedResult (bucket stored) config now)
            /\ s' = s1)
           \/ (TokenBucket.blockedAt (bucket stored) now = false
               /\ Num.ltb (tokens (refilled stored)) pts = true
               /\ bind
                    (storage_set now key
                       (TokenBucket.applyBlock (refilled stored) config now)
                       (duration config
                        + Num.or_else (blockDuration config) 60))
                    (fun _ =>
                       ret (rejectedResult
                              (TokenBucket.applyBlock (refilled stored)
                                 config now)))
                    s1 = (out, s'))
           \/ (TokenBucket.blockedAt (bucket stored) now = false
               /\ Num.ltb (tokens (refilled stored)) pts = false
               /\ bind
                    (storage_set now key (spent (refilled stored))
                       (duration config))
                    (fun _ => ret (acceptedResult (spent (refilled stored))))
                    s1 = (out, s'))).
Proof.
  intros Hc.
  destruct (storage_get now key s) as [[e|stored] s1] eqn:Hget.
  { rewrite (consume_get_throws s e s1 Hget) in Hc. injection Hc as <- <-.
    left. exists e. auto. }
  right. exists stored, s1. split; [reflexivity|].
  destruct (TokenBucket.blockedAt (bucket stored) now) eqn:Hb.
  - rewrite (consume_blocked s stored s1 Hget Hb) in Hc.
    injection Hc as <- <-. left. auto.
  - destruct (Num.ltb (tokens (refilled stored)) pts) eqn:Hlt.
    + rewrite (consume_rejected s stored s1 Hget Hb Hlt) in Hc.
      right. left. auto.
    + rewrite (consume_accepted s stored s1 Hget Hb Hlt) in Hc.
      right. right. auto.
Qed.

End StrategyFacts.

(** ** The in-memory backend *)

Section MemoryFacts.
Variables (now : number) (key : string).

Lemma memory_get_total st :
  exists stored s1, Memory.get now key st = (inr stored, s1).
Proof.
  unfold Memory.get.
  destruct (cache st !! Memory.buildKey st key) as [e|]; [|eauto].
  destruct (Num.ltb (expiresAt e) now); eauto.
Qed.

Lemma memory_get_live st e :
  cache st !! Memory.buildKey st key = Some e ->
  Num.ltb (expiresAt e) now = false ->
  Memory.get now key st = (inr (Some (data e)), st).
Proof. intros He Hl. unfold Memory.get. rewrite He, Hl. reflexivity. Qed.

Lemma memory_get_absent st :
  cache st !! Memory.buildKey st key = None ->
  Memory.get now key st = (inr None, st).
Proof. intros He. unfold Memory.get. rewrite He. reflexivity. Qed.

(** A [get] that finds a record leaves the backend as it was. *)
Lemma memory_get_some st d s1 :
  Memory.get now key st = (inr (Some d), s1) ->
  s1 = st /\ exists e, cache st !! Memory.buildKey st key = Some e
                       /\ data e = d /\ Num.ltb (expiresAt e) now = false.
Proof.
  unfold Memory.get.
  destruct (cache st !! Memory.buildKey st key) as [e|] eqn:He; [|discriminate].
  destruct (Num.ltb (expiresAt e) now) eqn:Hl; [discriminate|].
  intros [= <- <-]. split; [reflexivity|]. exists e. auto.
Qed.

Lemma memory_set_state st d ttl :
  Memory.set now key d ttl st
  = (inr tt,
     Memory.with_cache st
       (<[Memory.buildKey st key :=
            {| data := d; expiresAt := now + ttl * 1000 |}]> (cache st))).
Proof. reflexivity. Qed.

Lemma memory_buildKey_with_cache st c k :
  Memory.buildKey (Memory.with_cache st c) k = Memory.buildKey st k.
Proof. reflexivity. Qed.

Lemma memory_buildKey_inj st k1 k2 :
  Memory.buildKey st k1 = Memory.buildKey st k2 -> k1 = k2.
Proof.
  unfold Memory.buildKey. intros Heq.
  apply (inj (String.app _)) in Heq. apply (inj (String.app _)) in Heq.
  exact Heq.
Qed.

End MemoryFacts.

(** A record is read back at any clock value up to its expiry. *)
Lemma memory_get_after_set now key st d ttl later :
  later <= now + ttl * 1000 ->
  Memory.get later key (Memory.set now key d ttl st).2
  = (inr (Some d), (Memory.set now key d ttl st).2).
Proof.
  intros Hlater. rewrite memory_set_state. cbn [snd].
  apply (memory_get_live later key _ {| data := d; expiresAt := now + ttl * 1000 |}).
  - rewrite memory_buildKey_with_cache. cbn [cache Memory.with_cache].
    apply lookup_insert_eq.
  - apply ltb_ge. exact Hlater.
Qed.

(** ** Blocked buckets *)

Lemma spy_get {S : Type} `{IRateLimitStorage S} now key log (s : S) :
  storage_get now key {| calls := log; spied := s |}
  = ((storage_get now key s).1,
     {| calls := log ++ [CallGet key]; spied := (storage_get now key s).2 |}).
Proof.
  cbn [storage_get spy_storage]. unfold spy_on. cbn [spied calls].
  destruct (storage_get now key s) as [r s']. reflexivity.
Qed.

(** C5.  When storage holds, for the identifier, a bucket whose [blockUntil]
    is set and strictly later than [now] (a clock reading, hence not
    negative), [consume] returns [allowed = false], [remaining = 0],
    [isBlocked = true], [retryAfter = ceil ((blockUntil - now) / 1000)] and
    [resetAt = blockUntil].  It does so without refilling and without
    writing: the only storage call is the one [get], and the in-memory
    backend is left exactly as it was. *)
Theorem consume_blocked_short_circuit
    {S : Type} `{IRateLimitStorage S}
    (self : TokenBucketStrategy) (now : number) (identifier : string)
    (pts : number) (config : RateLimitConfig)
    (s s1 : S) (log : list StorageCall) (d : RateLimitData) (b : number) :
  storage_get now (TokenBucket.buildKey self identifier) s
  = (inr (Some d), s1) ->
  blockUntil d = Some b -> now < b -> 0 <= now ->
  let r := {| allowed := false;
              remaining := 0;
              limit := points config;
              resetAt := b;
              retryAfter := Math.ceil ((b - now) / 1000);
              result_consumed := consumed d;
              isBlocked := Some true |} in
  TokenBucket.consume self now identifier pts config s = (inr r, s1)
  /\ TokenBucket.consume self now identifier pts config
       {| calls := log; spied := s |}
     = (inr r,
        {| calls := log ++ [CallGet (TokenBucket.buildKey self identifier)];
           spied := s1 |})
  /\ forall m m1 : MemoryRateLimitStorage,
       Memory.get now (TokenBucket.buildKey self identifier) m
       = (inr (Some d), m1) ->
       TokenBucket.consume self now identifier pts config m = (inr r, m).
Proof.
  intros Hget Hb Hlt Hnow r.
  assert (Hblocked : TokenBucket.blockedAt d now = true)
    by (eapply blockedAt_future; eauto).
  assert (Hr : TokenBucket.blockedResult d config now = r).
  { unfold TokenBucket.blockedResult, r. rewrite Hb. reflexivity. }
  split; [|split].
  - rewrite (consume_blocked self now identifier pts config s (Some d) s1 Hget Hblocked).
    cbn [Scenario.loaded]. rewrite Hr. reflexivity.
  - rewrite (consume_blocked self now identifier pts config _ (Some d)
               {| calls := log ++ [CallGet (TokenBucket.buildKey self identifier)];
                  spied := s1 |}).
    + cbn [Scenario.loaded]. rewrite Hr. reflexivity.
    + rewrite spy_get, Hget. reflexivity.
    + exact Hblocked.
  - intros m m1 Hm. destruct (memory_get_some _ _ _ _ _ Hm) as [-> _].
    rewrite (@consume_blocked _ memory_storage self now identifier pts config m (Some d) m Hm Hblocked).
    cbn [Scenario.loaded]. rewrite Hr. reflexivity.
Qed.

(** C10.  A [consume] that returns reports [isBlocked = true] exactly when
    the record it loaded already carried a [blockUntil] later than [now];
    in every other case the field is absent.  In particular a call that
    rejects for lack of tokens leaves it out, also when that very call
    writes the [blockUntil] of the escalation to storage. *)
Theorem consume_isBlocked_only_for_stored_block
    {S : Type} `{IRateLimitStorage S}
    (self : TokenBucketStrategy) (now : number) (identifier : string)
    (pts : number) (config : RateLimitConfig) (s s' : S)
    (r : RateLimitResult) :
  TokenBucket.consume self now identifier pts config s = (inr r, s') ->
  exists stored s1,
    storage_get now (TokenBucket.buildKey self identifier) s = (inr stored, s1)
    /\ ((isBlocked r = Some true /\ allowed r = false /\ s' = s1
         /\ exists d b, stored = Some d /\ blockUntil d = Some b
                        /\ Num.truthy b = true /\ now < b)
        \/ (isBlocked r = None
            /\ TokenBucket.blockedAt (Scenario.loaded stored config now) now
               = false
            /\ let d := TokenBucket.refillTokens
                          (Scenario.loaded stored config now) config now in
               (allowed r = false <-> tokens d < pts)
               /\ (tokens d < pts ->
                   storage_set now (TokenBucket.buildKey self identifier)
                     (TokenBucket.applyBlock d config now)
                     (duration config + Num.or_else (blockDuration config) 60)
                     s1 = (inr tt, s')
                   /\ forall bd, blockDuration config = Some bd ->
                                 Num.truthy bd = true ->
                                 blockUntil (TokenBucket.applyBlock d config now)
                                 = Some (now + bd * 1000)))).
Proof.
  intros Hc.
  destruct (consume_cases self now identifier pts config s _ _ Hc)
    as [(e & _ & He)|(stored & s1 & Hget & Hcase)]; [discriminate|].
  exists stored, s1. split; [exact Hget|].
  destruct Hcase as [(Hb & Hout & ->)|[(Hb & Hlt & Hset)|(Hb & Hlt & Hset)]].
  - left. injection Hout as ->. repeat split.
    destruct (blockedAt_inv now _ Hb) as (b & Hbu & Ht & Hnow).
    destruct stored as [d|]; [|discriminate].
    exists d, b. auto.
  - right. unfold bind, ret in Hset.
    destruct (storage_set now _ _ _ s1) as [[e|[]] s2] eqn:Hs; [discriminate|].
    injection Hset as <- <-. apply ltb_lt in Hlt.
    split; [reflexivity|]. split; [exact Hb|]. cbn zeta. split.
    + split; auto.
    + intros _. split; [exact Hs|].
      intros bd Hbd Ht. apply applyBlock_escalates; assumption.
  - right. unfold bind, ret in Hset.
    destruct (storage_set now _ _ _ s1) as [[e|[]] s2] eqn:Hs; [discriminate|].
    injection Hset as <- <-. apply ltb_ge in Hlt.
    split; [reflexivity|]. split; [exact Hb|]. cbn zeta. split.
    + split; [discriminate|]. intros Hcontra. exfalso. lra.
    + intros Hcontra. exfalso. lra.
Qed.

(** ** Draining a bucket *)

Section Drain.
Variables (self : TokenBucketStrategy) (now : number) (identifier : string).
Variable config : RateLimitConfig.
Hypothesis duration_pos : 0 < duration config.

Local Abbreviation key := (TokenBucket.buildKey self identifier).
Local Abbreviation consume1 :=
  (TokenBucket.consume (S:=MemoryRateLimitStorage) self now identifier 1 config).

Lemma refill_same_instant d :
  lastRefill d = now -> tokens d <= points config ->
  tokens (TokenBucket.refillTokens d config now) == tokens d.
Proof.
  intros Hl Hle. unfold TokenBucket.refillTokens. cbn [tokens]. rewrite Hl.
  assert (He : tokens d + (now - now) / 1000 * TokenBucket.getRefillRate config
               == tokens d) by (unfold Qdiv; ring).
  destruct (min_cases (points config)
              (tokens d + (now - now) / 1000 * TokenBucket.getRefillRate config))
    as [[H1 H2]|[H1 H2]]; rewrite H2; lra.
Qed.

Lemma balance_after_set st d ttl t :
  0 <= ttl -> tokens d == t -> lastRefill d = now -> blockUntil d = None ->
  Scenario.balance self now identifier config t
    (Memory.set now key d ttl st).2.
Proof.
  intros Httl Ht Hl Hb. exists (Some d), (Memory.set now key d ttl st).2.
  split; [|auto].
  apply memory_get_after_set. nra.
Qed.

Lemma drain_accept st t :
  Scenario.balance self now identifier config t st ->
  1 <= t -> t <= points config ->
  exists r st',
    consume1 st = (inr r, st')
    /\ allowed r = true
    /\ remaining r = Math.floor (t - 1)
    /\ Scenario.balance self now identifier config (t - 1) st'.
Proof.
  intros (stored & s1 & Hget & Ht & Hl & Hb) H1 Hle.
  set (d0 := Scenario.loaded stored config now) in *.
  assert (Hr : tokens (TokenBucket.refillTokens d0 config now) == t).
  { rewrite refill_same_instant; [exact Ht | exact Hl | lra]. }
  assert (Hnb : TokenBucket.blockedAt d0 now = false).
  { unfold TokenBucket.blockedAt. rewrite Hb. reflexivity. }
  assert (Hge : Num.ltb (tokens (TokenBucket.refillTokens d0 config now)) 1 = false).
  { apply ltb_ge. lra. }
  exists (Scenario.acceptedResult now config
            (Scenario.spent 1 (TokenBucket.refillTokens d0 config now))),
    (Memory.set now key
       (Scenario.spent 1 (TokenBucket.refillTokens d0 config now))
       (duration config) s1).2.
  split; [|split; [|split]].
  - rewrite (@consume_accepted _ memory_storage self now identifier 1 config
               st stored s1 Hget Hnb Hge).
    reflexivity.
  - reflexivity.
  - cbn [remaining Scenario.acceptedResult Scenario.spent tokens].
    unfold Math.floor. f_equal. apply Qfloor_comp. fold d0. lra.
  - apply balance_after_set.
    + lra.
    + cbn [Scenario.spent tokens]. fold d0. lra.
    + reflexivity.
    + cbn [Scenario.spent blockUntil TokenBucket.refillTokens]. exact Hb.
Qed.

Lemma drain_reject st t :
  Scenario.balance self now identifier config t st ->
  0 <= t -> t < 1 -> t <= points config ->
  exists r st',
    consume1 st = (inr r, st')
    /\ allowed r = false
    /\ remaining r = Math.floor t.
Proof.
  intros (stored & s1 & Hget & Ht & Hl & Hb) H0 H1 Hle.
  set (d0 := Scenario.loaded stored config now) in *.
  assert (Hr : tokens (TokenBucket.refillTokens d0 config now) == t).
  { rewrite refill_same_instant; [exact Ht | exact Hl | lra]. }
  assert (Hnb : TokenBucket.blockedAt d0 now = false).
  { unfold TokenBucket.blockedAt. rewrite Hb. reflexivity. }
  assert (Hlt : Num.ltb (tokens (TokenBucket.refillTokens d0 config now)) 1 = true).
  { apply ltb_lt. lra. }
  eexists _, _. split; [|split].
  - rewrite (@consume_rejected _ memory_storage self now identifier 1 config
               st stored s1 Hget Hnb Hlt).
    unfold bind, ret. cbn [storage_set memory_storage].
    rewrite memory_set_state. reflexivity.
  - reflexivity.
  - cbn [remaining Scenario.rejectedResult]. rewrite applyBlock_tokens.
    unfold Math.floor. f_equal. apply Qfloor_comp. fold d0. exact Hr.
Qed.

End Drain.

Lemma balance_proper self now identifier config t t' st :
  t == t' ->
  Scenario.balance self now identifier config t st ->
  Scenario.balance self now identifier config t' st.
Proof.
  intros Heq (stored & s1 & Hget & Ht & Hrest).
  exists stored, s1. split; [exact Hget|]. split; [|exact Hrest].
  rewrite Ht. exact Heq.
Qed.

Lemma inject_Z_succ_pred (k : nat) :
  inject_Z (Z.of_nat (Datatypes.S k)) - 1 == inject_Z (Z.of_nat k).
Proof.
  rewrite Nat2Z.inj_succ. unfold Z.succ. rewrite inject_Z_plus.
  change (inject_Z 1) with 1. ring.
Qed.

Lemma drain_all self now identifier config (n : nat) :
  0 < duration config ->
  forall st,
    Scenario.balance self now identifier config (inject_Z (Z.of_nat n)) st ->
    inject_Z (Z.of_nat n) <= points config ->
    exists rs st',
      Scenario.consumeTimes (n + 1) self now identifier 1 config st
      = (inr rs, st')
      /\ (forall i : nat, (i < n)%nat ->
          exists r, rs !! i = Some r /\ allowed r = true
                    /\ remaining r
                       = inject_Z (Z.of_nat n - Z.of_nat i - 1))
      /\ (exists r, rs !! n = Some r /\ allowed r = false /\ remaining r = 0).
Proof.
  intros Hdur. induction n as [|k IH]; intros st Hbal Hle.
  - destruct (drain_reject self now identifier config st _ Hbal)
      as (r & st' & Hc & Ha & Hrem); [easy | easy | exact Hle |].
    exists [r], st'. split; [|split].
    + cbn [Nat.add Scenario.consumeTimes]. unfold bind, ret. rewrite Hc.
      reflexivity.
    + intros i Hi. lia.
    + exists r. repeat split; [exact Ha|]. rewrite Hrem. reflexivity.
  - assert (H1 : 1 <= inject_Z (Z.of_nat (Datatypes.S k))).
    { change 1 with (inject_Z 1). rewrite <- Zle_Qle. lia. }
    destruct (drain_accept self now identifier config Hdur st _ Hbal H1 Hle)
      as (r & st1 & Hc & Ha & Hrem & Hbal1).
    apply (balance_proper _ _ _ _ _ _ _ (inject_Z_succ_pred k)) in Hbal1.
    assert (Hle1 : inject_Z (Z.of_nat k) <= points config).
    { rewrite <- (inject_Z_succ_pred k). lra. }
    destruct (IH st1 Hbal1 Hle1) as (rs & st' & Hcs & Hacc & Hrej).
    exists (r :: rs), st'. split; [|split].
    + change (Datatypes.S k + 1)%nat with (Datatypes.S (k + 1)).
      cbn [Scenario.consumeTimes]. unfold bind at 1. rewrite Hc.
      unfold bind at 1. rewrite Hcs. reflexivity.
    + intros [|j] Hj.
      * exists r. split; [reflexivity|]. split; [exact Ha|].
        rewrite Hrem. rewrite (floor_int _ (Z.of_nat k)).
        -- f_equal. lia.
        -- apply inject_Z_succ_pred.
      * destruct (Hacc j ltac:(lia)) as (r' & Hl & Ha' & Hr').
        exists r'. split; [exact Hl|]. split; [exact Ha'|].
        rewrite Hr'. f_equal. lia.
    + exact Hrej.
Qed.

(** C1.  Take a configuration whose capacity is an integer [P >= 1] and
    whose duration is positive, and an identifier for which the in-memory
    backend returns nothing.  [P + 1] calls of [consume] with cost 1, all at
    the same clock value, return [allowed = true] with [remaining = P - i]
    on the [i]-th call for [i = 1 .. P] (so [P - 1] on the first), and
    [allowed = false] with [remaining = 0] on call [P + 1]. *)
Theorem drain_from_fresh
    (self : TokenBucketStrategy) (now : number) (identifier : string)
    (config : RateLimitConfig) (P : Z) (st : MemoryRateLimitStorage) :
  points config == inject_Z P -> (1 <= P)%Z -> 0 < duration config ->
  (Memory.get now (TokenBucket.buildKey self identifier) st).1 = inr None ->
  exists rs st',
    Scenario.consumeTimes (Z.to_nat P + 1) self now identifier 1 config st
    = (inr rs, st')
    /\ (forall i : Z, (1 <= i <= P)%Z ->
        exists r, rs !! Z.to_nat (i - 1) = Some r /\ allowed r = true
                  /\ remaining r = inject_Z (P - i))
    /\ (exists r, rs !! Z.to_nat P = Some r /\ allowed r = false
                  /\ remaining r = 0).
Proof.
  intros HP H1 Hdur Hget.
  assert (Hbal : Scenario.balance self now identifier config
                   (inject_Z (Z.of_nat (Z.to_nat P))) st).
  { destruct (Memory.get now (TokenBucket.buildKey self identifier) st)
      as [o s1] eqn:Hg. cbn [fst] in Hget. subst o.
    exists None, s1. split; [exact Hg|].
    cbn [Scenario.loaded TokenBucket.fresh tokens lastRefill blockUntil].
    split; [|auto]. rewrite Z2Nat.id by lia. exact HP. }
  destruct (drain_all self now identifier config (Z.to_nat P) Hdur st Hbal)
    as (rs & st' & Hcs & Hacc & Hrej).
  { rewrite Z2Nat.id by lia. rewrite HP. apply Qle_refl. }
  exists rs, st'. split; [exact Hcs|]. split; [|exact Hrej].
  intros i Hi.
  destruct (Hacc (Z.to_nat (i - 1)) ltac:(lia)) as (r & Hl & Ha & Hr).
  exists r. split; [exact Hl|]. split; [exact Ha|].
  rewrite Hr. f_equal. lia.
Qed.

(** ** Refill *)

Lemma refillTokens_tokens d config now :
  tokens (TokenBucket.refillTokens d config now)
  = Math.min (points config)
      (tokens d + (now - lastRefill d) / 1000 * (points config / duration config)).
Proof. reflexivity. Qed.

Lemma refillTokens_lastRefill d config now :
  lastRefill (TokenBucket.refillTokens d config now) = now.
Proof. reflexivity. Qed.

Lemma memory_lookup_after_set now key d ttl st :
  cache (Memory.set now key d ttl st).2 !! Memory.buildKey st key
  = Some {| data := d; expiresAt := now + ttl * 1000 |}.
Proof. rewrite memory_set_state. cbn. apply lookup_insert_eq. Qed.

(** C3.  For a stored bucket [d] with no active block, [consume] and
    [getStatus] at clock value [now] work on the balance
    [min (points, tokens + ((now - lastRefill) / 1000) * (points / duration))]:
    [consume] accepts exactly when the cost does not exceed it and persists
    a record with [lastRefill = now] whose balance is it (less the cost when
    accepted); [getStatus] reports its floor.  With [points = 10] and
    [duration = 10], a bucket at 0 tokens that was refilled 5 seconds
    earlier answers [consume] of cost 1 with [allowed = true] and
    [remaining = 4]. *)
Theorem refill_precedes_balance_check
    (self : TokenBucketStrategy) (now : number) (identifier : string)
    (pts : number) (config : RateLimitConfig)
    (st : MemoryRateLimitStorage) (d : RateLimitData) :
  Memory.get now (TokenBucket.buildKey self identifier) st
  = (inr (Some d), st) ->
  TokenBucket.blockedAt d now = false ->
  let t' :=
    Math.min (points config)
      (tokens d
       + (now - lastRefill d) / 1000 * (points config / duration config)) in
  (exists r st' e,
      TokenBucket.consume self now identifier pts config st = (inr r, st')
      /\ allowed r = negb (Num.ltb t' pts)
      /\ cache st' !! Memory.buildKey st (TokenBucket.buildKey self identifier)
         = Some e
      /\ lastRefill (data e) = now
      /\ tokens (data e) = (if allowed r then t' - pts else t')
      /\ remaining r = Math.floor (tokens (data e)))
  /\ (exists r,
        TokenBucket.getStatus self now identifier config st = (inr r, st)
        /\ allowed r = Num.geb t' 1
        /\ remaining r = Math.floor t')
  /\ (points config == 10 -> duration config == 10 -> tokens d == 0 ->
      now == lastRefill d + 5000 ->
      exists r st',
        TokenBucket.consume self now identifier 1 config st = (inr r, st')
        /\ allowed r = true /\ remaining r = 4).
Proof.
  intros Hget Hnb t'.
  pose proof (refillTokens_tokens d config now) as Htok. fold t' in Htok.
  split; [|split].
  - destruct (Num.ltb t' pts) eqn:Hlt.
    + eexists _, _, _. split; [|split; [|split; [|split; [|split]]]].
      * rewrite (@consume_rejected _ memory_storage self now identifier pts
                   config st (Some d) st Hget Hnb);
          [reflexivity | cbn [Scenario.loaded]; rewrite Htok; exact Hlt].
      * reflexivity.
      * apply memory_lookup_after_set.
      * cbn [data]. apply applyBlock_lastRefill.
      * cbn [data allowed Scenario.rejectedResult]. rewrite applyBlock_tokens.
        exact Htok.
      * reflexivity.
    + eexists _, _, _. split; [|split; [|split; [|split; [|split]]]].
      * rewrite (@consume_accepted _ memory_storage self now identifier pts
                   config st (Some d) st Hget Hnb);
          [reflexivity | cbn [Scenario.loaded]; rewrite Htok; exact Hlt].
      * reflexivity.
      * apply memory_lookup_after_set.
      * reflexivity.
      * reflexivity.
      * reflexivity.
  - eexists. split; [|split].
    + unfold TokenBucket.getStatus, bind. cbn [storage_get memory_storage].
      rewrite Hget, Hnb. reflexivity.
    + reflexivity.
    + reflexivity.
  - intros Hp Hd Ht Hnow.
    assert (H5 : t' == 5).
    { unfold t'.
      assert (He : tokens d + (now - lastRefill d) / 1000
                              * (points config / duration config) == 5).
      { rewrite Hp, Hd, Ht, Hnow. field. }
      destruct (min_cases (points config)
                  (tokens d + (now - lastRefill d) / 1000
                              * (points config / duration config)))
        as [[H1 H2]|[H1 H2]]; rewrite H2; lra. }
    assert (Hge : Num.ltb (tokens (TokenBucket.refillTokens d config now)) 1 = false).
    { rewrite Htok. apply ltb_ge. lra. }
    eexists _, _. split; [|split].
    + rewrite (@consume_accepted _ memory_storage self now identifier 1
                 config st (Some d) st Hget Hnb Hge). reflexivity.
    + reflexivity.
    + cbn [remaining Scenario.acceptedResult Scenario.spent tokens Scenario.loaded].
      rewrite Htok. apply (floor_int _ 4). rewrite H5. reflexivity.
Qed.

(** ** Block escalation *)

Lemma isBlocked_stored {S : Type} `{IRateLimitStorage S}
    self now identifier (s s1 : S) d b :
  storage_get now (TokenBucket.buildKey self identifier) s
  = (inr (Some d), s1) ->
  blockUntil d = Some b -> now < b -> 0 <= now ->
  TokenBucket.isBlocked self now identifier s = (inr true, s1).
Proof.
  intros Hget Hb Hlt Hnow. unfold TokenBucket.isBlocked, bind.
  rewrite Hget, Hb, (truthy_pos b) by lra. unfold ret.
  apply ltb_lt in Hlt. rewrite Hlt. reflexivity.
Qed.

(** C4.  With [blockDuration] set (and a valid, positive [duration]), once
    a [consume] at clock value [now] rejects for lack of tokens, then at
    every clock value from [now] on and before [now + blockDuration * 1000]
    [isBlocked] answers true and [consume], whatever its cost and
    configuration, returns [allowed = false] with [isBlocked = true]; both
    leave the stored record as it is, so this holds for every call inside
    that interval, however much the elapsed time would have refilled. *)
Theorem block_escalation
    (self : TokenBucketStrategy) (now : number) (identifier : string)
    (pts : number) (config : RateLimitConfig) (bd : number)
    (st st' : MemoryRateLimitStorage) (r : RateLimitResult) :
  blockDuration config = Some bd -> 0 < duration config -> 0 <= now ->
  TokenBucket.consume self now identifier pts config st = (inr r, st') ->
  allowed r = false -> isBlocked r = None ->
  forall later, now <= later -> later < now + bd * 1000 ->
    TokenBucket.isBlocked self later identifier st' = (inr true, st')
    /\ forall pts' config',
         exists r',
           TokenBucket.consume self later identifier pts' config' st'
           = (inr r', st')
           /\ allowed r' = false /\ isBlocked r' = Some true
           /\ remaining r' = 0.
Proof.
  intros Hbd Hdur Hnow Hc Ha Hi later Hl1 Hl2.
  assert (Hpos : 0 < bd) by lra.
  destruct (@consume_cases _ memory_storage self now identifier pts config
              st _ _ Hc)
    as [(e & _ & He)|(stored & s1 & Hget & Hcase)]; [discriminate|].
  destruct Hcase as [(Hb & Hout & ->)|[(Hb & Hlt & Hset)|(Hb & Hlt & Hset)]].
  - injection Hout as ->. discriminate.
  - unfold bind, ret in Hset. cbn [storage_set memory_storage] in Hset.
    set (d' := TokenBucket.applyBlock _ config now) in Hset.
    set (ttl := duration config + _) in Hset.
    assert (Hst' : st' = (Memory.set now (TokenBucket.buildKey self identifier)
                            d' ttl s1).2).
    { rewrite memory_set_state in Hset |- *. injection Hset as _ <-. reflexivity. }
    assert (Httl : ttl == duration config + bd).
    { unfold ttl, Num.or_else. rewrite Hbd, (truthy_pos bd) by exact Hpos.
      reflexivity. }
    assert (Hbu : blockUntil d' = Some (now + bd * 1000)).
    { apply applyBlock_escalates; [exact Hbd | apply truthy_pos; exact Hpos]. }
    assert (Hg : Memory.get later (TokenBucket.buildKey self identifier) st'
                 = (inr (Some d'), st')).
    { rewrite Hst'. apply memory_get_after_set. rewrite Httl. nra. }
    split.
    + apply (@isBlocked_stored _ memory_storage self later identifier st' st' d'
               (now + bd * 1000)); [exact Hg | exact Hbu | exact Hl2 | lra].
    + intros pts' config'. eexists. split; [|split; [|split]].
      * apply (@consume_blocked _ memory_storage self later identifier pts'
                 config' st' (Some d') st' Hg).
        cbn [Scenario.loaded].
        apply (blockedAt_future later d' (now + bd * 1000));
          [exact Hbu | exact Hl2 | lra].
      * reflexivity.
      * reflexivity.
      * reflexivity.
  - unfold bind, ret in Hset. cbn [storage_set memory_storage] in Hset.
    rewrite memory_set_state in Hset. injection Hset as <- _. discriminate.
Qed.

(** ** Status preview *)

Lemma floor_unique (x : number) (z : Z) :
  inject_Z z <= x -> x < inject_Z (z + 1) -> Qfloor x = z.
Proof.
  intros Hle Hlt.
  pose proof (Qfloor_resp_le _ _ Hle) as H1. rewrite Qfloor_Z in H1.
  pose proof (Qfloor_le x) as H2.
  assert (H3 : inject_Z (Qfloor x) < inject_Z (z + 1)) by lra.
  rewrite <- Zlt_Qlt in H3. lia.
Qed.

Lemma floor_pred (x : number) : Math.floor (x - 1) == Math.floor x - 1.
Proof.
  unfold Math.floor.
  rewrite (floor_unique (x - 1) (Qfloor x - 1)).
  - unfold Z.sub. rewrite inject_Z_plus, inject_Z_opp.
    change (inject_Z 1) with 1. ring.
  - pose proof (Qfloor_le x). unfold Z.sub. rewrite inject_Z_plus, inject_Z_opp.
    change (inject_Z 1) with 1. lra.
  - pose proof (Qlt_floor x) as H. rewrite inject_Z_plus in H.
    replace (Qfloor x - 1 + 1)%Z with (Qfloor x) by lia.
    change (inject_Z 1) with 1 in H. lra.
Qed.

Lemma getStatus_state {S : Type} `{IRateLimitStorage S}
    self now identifier config (s : S) :
  (TokenBucket.getStatus self now identifier config s).2
  = (storage_get now (TokenBucket.buildKey self identifier) s).2.
Proof.
  unfold TokenBucket.getStatus, bind.
  destruct (storage_get now _ s) as [[e|[d|]] s1]; cbn [snd]; try reflexivity.
  destruct (TokenBucket.blockedAt d now); reflexivity.
Qed.

Lemma getStatus_stored {S : Type} `{IRateLimitStorage S}
    self now identifier config (s s1 : S) d :
  storage_get now (TokenBucket.buildKey self identifier) s
  = (inr (Some d), s1) ->
  TokenBucket.getStatus self now identifier config s
  = (inr (if TokenBucket.blockedAt d now
          then TokenBucket.blockedResult d config now
          else
            let d' := TokenBucket.refillTokens d config now in
            {| allowed := Num.geb (tokens d') 1;
               remaining := Math.floor (tokens d');
               limit := points config;
               resetAt :=
                 Math.floor
                   (now + (points config - tokens d')
                          / TokenBucket.getRefillRate config * 1000);
               retryAfter := 0;
               result_consumed := consumed d';
               isBlocked := None |}), s1).
Proof.
  intros Hget. unfold TokenBucket.getStatus, bind. rewrite Hget.
  destruct (TokenBucket.blockedAt d now); reflexivity.
Qed.

(** What a [get] at clock value [now] leaves of the in-memory backend
    answers every later [get] as the backend before it would have. *)
Lemma memory_get_observably_pure now key st k t :
  now <= t ->
  (Memory.get t k (Memory.get now key st).2).1 = (Memory.get t k st).1.
Proof.
  intros Hnt. unfold Memory.get at 2.
  destruct (cache st !! Memory.buildKey st key) as [e|] eqn:He; [|reflexivity].
  destruct (Num.ltb (expiresAt e) now) eqn:Hexp; [|reflexivity].
  cbn [snd]. unfold Memory.get. rewrite memory_buildKey_with_cache.
  cbn [cache Memory.with_cache].
  destruct (decide (Memory.buildKey st k = Memory.buildKey st key)) as [Heq|Hne].
  - rewrite Heq, lookup_delete_eq, He.
    assert (Ht : Num.ltb (expiresAt e) t = true).
    { apply ltb_lt. apply ltb_lt in Hexp. lra. }
    rewrite Ht. reflexivity.
  - rewrite lookup_delete_ne by congruence.
    destruct (cache st !! Memory.buildKey st k) as [e'|]; [|reflexivity].
    destruct (Num.ltb (expiresAt e') t); reflexivity.
Qed.

(** C8.  [getStatus] reaches storage through one [get] and nothing else,
    whatever the backend: no [set] and no [delete] is issued.  On the
    in-memory backend the call always returns, every later [get] answers
    as it would have without the call, and a backend whose entry for the
    identifier is live or missing is left exactly as it was.  For a stored
    bucket the result follows [consume]: an active block yields the very
    result [consume] yields, and otherwise [remaining] is the floor of the
    same refilled balance, on which a [consume] of cost 1 takes the same
    decision. *)
Theorem getStatus_read_only
    {S : Type} `{IRateLimitStorage S}
    (self : TokenBucketStrategy) (now : number) (identifier : string)
    (config : RateLimitConfig) (s : S) (log : list StorageCall)
    (st : MemoryRateLimitStorage) :
  (TokenBucket.getStatus self now identifier config s).2
  = (storage_get now (TokenBucket.buildKey self identifier) s).2
  /\ calls (TokenBucket.getStatus self now identifier config
              {| calls := log; spied := s |}).2
     = log ++ [CallGet (TokenBucket.buildKey self identifier)]
  /\ (exists r st',
        TokenBucket.getStatus self now identifier config st = (inr r, st')
        /\ (forall k t, now <= t ->
              (Memory.get t k st').1 = (Memory.get t k st).1)
        /\ (forall d,
              (Memory.get now (TokenBucket.buildKey self identifier) st).1
              = inr (Some d) -> st' = st)
        /\ (cache st !! Memory.buildKey st (TokenBucket.buildKey self identifier)
            = None -> st' = st))
  /\ (forall d s1,
       storage_get now (TokenBucket.buildKey self identifier) s
       = (inr (Some d), s1) ->
       exists r,
         TokenBucket.getStatus self now identifier config s = (inr r, s1)
         /\ (TokenBucket.blockedAt d now = true ->
             forall pts,
               TokenBucket.consume self now identifier pts config s
               = (inr r, s1))
         /\ (TokenBucket.blockedAt d now = false ->
             remaining r
             = Math.floor (tokens (TokenBucket.refillTokens d config now))
             /\ forall rc s2,
                  TokenBucket.consume self now identifier 1 config s
                  = (inr rc, s2) ->
                  allowed rc = allowed r /\ isBlocked rc = isBlocked r
                  /\ remaining rc
                     == (if allowed rc then remaining r - 1 else remaining r)))
  /\ forall s1,
       storage_get now (TokenBucket.buildKey self identifier) s
       = (inr None, s1) ->
       exists r,
         TokenBucket.getStatus self now identifier config s = (inr r, s1)
         /\ allowed r = true /\ isBlocked r = None
         /\ remaining r = points config
         /\ (1 <= points config ->
             forall rc s2,
               TokenBucket.consume self now identifier 1 config s
               = (inr rc, s2) ->
               allowed rc = true /\ isBlocked rc = None
               /\ remaining rc == Math.floor (remaining r) - 1).
Proof.
  split; [apply getStatus_state|]. split; [|split; [|split]].
  - rewrite getStatus_state, spy_get. reflexivity.
  - destruct (TokenBucket.getStatus self now identifier config st)
      as [out st'] eqn:Hgs.
    pose proof (@getStatus_state _ memory_storage self now identifier config st)
      as Hst. rewrite Hgs in Hst. cbn [snd storage_get memory_storage] in Hst.
    assert (Hout : exists r, out = inr r).
    { unfold TokenBucket.getStatus, bind in Hgs.
      cbn [storage_get memory_storage] in Hgs.
      destruct (memory_get_total now (TokenBucket.buildKey self identifier) st)
        as (stored & s1 & Hg).
      rewrite Hg in Hgs. destruct stored as [d|].
      - destruct (TokenBucket.blockedAt d now); injection Hgs as <- _; eauto.
      - injection Hgs as <- _; eauto. }
    destruct Hout as [r ->]. exists r, st'. split; [reflexivity|].
    split; [|split].
    + intros k t Hnt. rewrite Hst. apply memory_get_observably_pure. exact Hnt.
    + intros d Hd.
      destruct (Memory.get now (TokenBucket.buildKey self identifier) st)
        as [o s1] eqn:Hg. cbn [fst snd] in Hd, Hst. subst o s1.
      apply memory_get_some in Hg. tauto.
    + intros Hnone. rewrite Hst, memory_get_absent by exact Hnone. reflexivity.
  - intros d s1 Hget. eexists. split; [apply getStatus_stored; exact Hget|].
    split.
    + intros Hb pts. rewrite Hb.
      apply (consume_blocked self now identifier pts config s (Some d) s1 Hget Hb).
    + intros Hb. rewrite Hb. split; [reflexivity|].
      intros rc s2 Hc.
      destruct (consume_cases self now identifier 1 config s _ _ Hc)
        as [(e & _ & He)|(stored & s1' & Hget' & Hcase)]; [discriminate|].
      rewrite Hget in Hget'. injection Hget' as <- <-.
      cbn [Scenario.loaded] in Hcase.
      destruct Hcase as [(Hb' & _)|[(_ & Hlt & Hset)|(_ & Hlt & Hset)]].
      * congruence.
      * unfold bind, ret in Hset.
        destruct (storage_set now _ _ _ s1) as [[e|[]] s3]; [discriminate|].
        injection Hset as <- _.
        cbn [allowed isBlocked remaining Scenario.rejectedResult].
        rewrite applyBlock_tokens. unfold Num.geb. unfold Num.ltb in Hlt.
        apply negb_true_iff in Hlt. rewrite Hlt.
        split; [reflexivity|]. split; reflexivity.
      * unfold bind, ret in Hset.
        destruct (storage_set now _ _ _ s1) as [[e|[]] s3]; [discriminate|].
        injection Hset as <- _.
        cbn [allowed isBlocked remaining Scenario.acceptedResult
               Scenario.spent tokens].
        unfold Num.geb. unfold Num.ltb in Hlt.
        apply negb_false_iff in Hlt. rewrite Hlt.
        split; [reflexivity|]. split; [reflexivity|]. apply floor_pred.
  - intros s1 Hget. eexists. split; [|split; [|split; [|split]]].
    + unfold TokenBucket.getStatus, bind. rewrite Hget. reflexivity.
    + reflexivity.
    + reflexivity.
    + reflexivity.
    + intros Hp rc s2 Hc. cbn [remaining].
      assert (Hfresh : tokens (TokenBucket.refillTokens
                                 (TokenBucket.fresh config now) config now)
                       == points config).
      { unfold TokenBucket.refillTokens, TokenBucket.fresh.
        cbn [tokens lastRefill].
        assert (He : points config
                     + (now - now) / 1000 * TokenBucket.getRefillRate config
                     == points config) by (unfold Qdiv; ring).
        destruct (min_cases (points config)
                    (points config
                     + (now - now) / 1000 * TokenBucket.getRefillRate config))
          as [[H1 H2]|[H1 H2]]; rewrite H2; lra. }
      destruct (consume_cases self now identifier 1 config s _ _ Hc)
        as [(e & _ & He)|(stored & s1' & Hget' & Hcase)]; [discriminate|].
      rewrite Hget in Hget'. injection Hget' as <- <-.
      cbn [Scenario.loaded] in Hcase.
      destruct Hcase as [(Hb' & _)|[(_ & Hlt & _)|(_ & Hlt & Hset)]].
      * discriminate.
      * exfalso. apply ltb_lt in Hlt. lra.
      * unfold bind, ret in Hset.
        destruct (storage_set now _ _ _ s1) as [[e|[]] s3]; [discriminate|].
        injection Hset as <- _.
        cbn [allowed isBlocked remaining Scenario.acceptedResult
               Scenario.spent tokens].
        split; [reflexivity|]. split; [reflexivity|].
        rewrite floor_pred. unfold Math.floor.
        rewrite Hfresh. reflexivity.
Qed.

(** ** The stored balance stays within the capacity *)

Section Capacity.
Variables (self : TokenBucketStrategy) (config : RateLimitConfig).
Hypothesis points_nonneg : 0 <= points config.
Hypothesis duration_pos : 0 < duration config.

Local Abbreviation within := (Scenario.cacheWithin config).

Lemma refill_gain_nonneg d now :
  lastRefill d <= now ->
  0 <= (now - lastRefill d) / 1000 * TokenBucket.getRefillRate config.
Proof.
  intros Hl. apply Qmult_le_0_compat.
  - apply Qle_shift_div_l; [reflexivity | lra].
  - unfold TokenBucket.getRefillRate. apply Qle_shift_div_l; lra.
Qed.

Lemma refill_within d now :
  0 <= tokens d -> lastRefill d <= now ->
  0 <= tokens (TokenBucket.refillTokens d config now)
  /\ tokens (TokenBucket.refillTokens d config now) <= points config.
Proof.
  intros Ht Hl. pose proof (refill_gain_nonneg d now Hl) as Hg.
  unfold TokenBucket.refillTokens. cbn [tokens].
  destruct (min_cases (points config)
              (tokens d + (now - lastRefill d) / 1000
                          * TokenBucket.getRefillRate config))
    as [[H1 H2]|[H1 H2]]; rewrite H2; lra.
Qed.

Lemma within_mono t t' st : t <= t' -> within t st -> within t' st.
Proof.
  intros Hle Hw k e He. destruct (Hw k e He) as (H1 & H2 & H3).
  repeat split; [exact H1 | exact H2 | lra].
Qed.

Lemma within_get now key st t :
  within t st ->
  exists stored st',
    Memory.get now key st = (inr stored, st')
    /\ within t st'
    /\ forall d, stored = Some d ->
         0 <= tokens d /\ tokens d <= points config /\ lastRefill d <= t.
Proof.
  intros Hw. unfold Memory.get.
  destruct (cache st !! Memory.buildKey st key) as [e|] eqn:He.
  - destruct (Num.ltb (expiresAt e) now).
    + eexists _, _. split; [reflexivity|]. split; [|discriminate].
      intros k e' He'. cbn [cache Memory.with_cache] in He'.
      apply lookup_delete_Some in He' as [_ He']. eapply Hw; exact He'.
    + eexists _, _. split; [reflexivity|]. split; [exact Hw|].
      intros d [= <-]. eapply Hw; exact He.
  - eexists _, _. split; [reflexivity|]. split; [exact Hw|]. discriminate.
Qed.

Lemma within_set now key d ttl st :
  within now st ->
  0 <= tokens d -> tokens d <= points config -> lastRefill d <= now ->
  within now (Memory.set now key d ttl st).2.
Proof.
  intros Hw H1 H2 H3 k e He. rewrite memory_set_state in He.
  cbn [snd cache Memory.with_cache] in He.
  apply lookup_insert_Some in He as [[_ <-]|[_ He]].
  - cbn [data]. auto.
  - eapply Hw; exact He.
Qed.

Lemma within_delete key st t :
  within t st -> within t (Memory.delete key st).2.
Proof.
  intros Hw k e He. cbn [Memory.delete snd cache Memory.with_cache] in He.
  apply lookup_delete_Some in He as [_ He]. eapply Hw; exact He.
Qed.

Lemma loaded_within stored now t :
  t <= now ->
  (forall d, stored = Some d ->
     0 <= tokens d /\ tokens d <= points config /\ lastRefill d <= t) ->
  0 <= tokens (Scenario.loaded stored config now)
  /\ lastRefill (Scenario.loaded stored config now) <= now.
Proof.
  intros Hle Hd. destruct stored as [d|]; cbn.
  - destruct (Hd d eq_refl) as (H1 & H2 & H3). split; lra.
  - split; [exact points_nonneg | apply Qle_refl].
Qed.

Lemma within_consume now identifier pts st t :
  within t st -> t <= now -> 0 <= pts ->
  exists r st',
    TokenBucket.consume self now identifier pts config st = (inr r, st')
    /\ within now st'.
Proof.
  intros Hw Hle Hpts.
  destruct (within_get now (TokenBucket.buildKey self identifier) st t Hw)
    as (stored & s1 & Hget & Hw1 & Hd).
  apply (within_mono t now _ Hle) in Hw1.
  destruct (loaded_within stored now t Hle Hd) as [Hl0 Hl1].
  destruct (refill_within _ now Hl0 Hl1) as [Hr0 Hr1].
  destruct (TokenBucket.blockedAt (Scenario.loaded stored config now) now)
    eqn:Hb.
  - eexists _, _. split; [|exact Hw1].
    apply (@consume_blocked _ memory_storage self now identifier pts config
             st stored s1 Hget Hb).
  - destruct (Num.ltb (tokens (TokenBucket.refillTokens
                 (Scenario.loaded stored config now) config now)) pts)
      eqn:Hlt.
    + eexists _, _. split.
      * rewrite (@consume_rejected _ memory_storage self now identifier pts
                   config st stored s1 Hget Hb Hlt). reflexivity.
      * apply within_set; [exact Hw1 | | | ].
        -- rewrite applyBlock_tokens. exact Hr0.
        -- rewrite applyBlock_tokens. exact Hr1.
        -- rewrite applyBlock_lastRefill. apply Qle_refl.
    + eexists _, _. split.
      * rewrite (@consume_accepted _ memory_storage self now identifier pts
                   config st stored s1 Hget Hb Hlt). reflexivity.
      * apply ltb_ge in Hlt.
        apply within_set; [exact Hw1 | | | ]; cbn [Scenario.spent tokens lastRefill].
        -- lra.
        -- lra.
        -- apply Qle_refl.
Qed.

Lemma within_step now op st t :
  within t st -> t <= now -> Scenario.costOk op ->
  exists st', Scenario.step self config now op st = (inr tt, st')
              /\ within now st'.
Proof.
  intros Hw Hle Hcost. destruct op as [id pts|id|id dur|id|id];
    cbn [Scenario.step Scenario.costOk] in *.
  - destruct (within_consume now id pts st t Hw Hle Hcost)
      as (r & st' & Hc & Hw').
    exists st'. split; [|exact Hw']. unfold bind, ret. rewrite Hc. reflexivity.
  - exists (TokenBucket.getStatus self now id config st).2. split.
    + unfold bind, ret.
      destruct (TokenBucket.getStatus self now id config st) as [[e|r] st']
        eqn:Hgs; [|reflexivity].
      exfalso. unfold TokenBucket.getStatus, bind in Hgs.
      cbn [storage_get memory_storage] in Hgs.
      destruct (memory_get_total now (TokenBucket.buildKey self id) st)
        as (stored & s1 & Hg). rewrite Hg in Hgs.
      destruct stored as [d|]; [destruct (TokenBucket.blockedAt d now)|];
        discriminate.
    + rewrite (@getStatus_state _ memory_storage).
      cbn [storage_get memory_storage].
      destruct (within_get now (TokenBucket.buildKey self id) st t Hw)
        as (stored & s1 & Hget & Hw1 & _). rewrite Hget.
      apply (within_mono t now _ Hle). exact Hw1.
  - eexists. split; [reflexivity|].
    apply within_set; cbn [tokens lastRefill];
      [apply (within_mono t now _ Hle); exact Hw | apply Qle_refl
      | exact points_nonneg | apply Qle_refl].
  - eexists. split; [reflexivity|].
    apply within_delete. apply (within_mono t now _ Hle). exact Hw.
  - destruct (within_get now (TokenBucket.buildKey self id) st t Hw)
      as (stored & s1 & Hget & Hw1 & _).
    exists s1. split; [|apply (within_mono t now _ Hle); exact Hw1].
    unfold TokenBucket.isBlocked, bind, ret.
    cbn [storage_get memory_storage]. rewrite Hget.
    destruct stored as [d|]; [|reflexivity].
    destruct (blockUntil d) as [b|]; [|reflexivity].
    destruct (Num.truthy b); reflexivity.
Qed.

Lemma within_run ops : forall st t,
  within t st -> Scenario.clockOrdered t ops ->
  Forall (fun o => Scenario.costOk o.2) ops ->
  exists st' t', Scenario.run self config ops st = (inr tt, st')
                 /\ within t' st'.
Proof.
  induction ops as [|[now op] rest IH]; intros st t Hw Hclock Hcost.
  - exists st, t. split; [reflexivity | exact Hw].
  - destruct Hclock as [Hle Hclock]. inversion Hcost as [|? ? Hc1 Hc2]; subst.
    destruct (within_step now op st t Hw Hle Hc1) as (st1 & Hs & Hw1).
    destruct (IH st1 now Hw1 Hclock Hc2) as (st' & t' & Hr & Hw').
    exists st', t'. split; [|exact Hw'].
    cbn [Scenario.run]. unfold bind. rewrite Hs. exact Hr.
Qed.

End Capacity.

Lemma clockOrdered_prefix pre : forall t post,
  Scenario.clockOrdered t (pre ++ post) -> Scenario.clockOrdered t pre.
Proof.
  induction pre as [|[now op] pre IH]; intros t post Hc; [exact I|].
  destruct Hc as [Hle Hc]. split; [exact Hle | eapply IH; exact Hc].
Qed.

(** C9.  Fix a valid configuration ([points] not negative, [duration]
    positive) and run any sequence of [consume] (with non-negative cost),
    [getStatus], [block], [reset] and [isBlocked] calls, for any
    identifiers, whose clock readings never decrease, from a backend whose
    records are within the capacity (the empty one, for instance).  After
    every prefix of the sequence, every record that the backend holds has
    [0 <= tokens <= points]. *)
Theorem stored_tokens_within_capacity
    (self : TokenBucketStrategy) (config : RateLimitConfig)
    (ops : list (number * Scenario.Op)) (st : MemoryRateLimitStorage)
    (t : number) :
  0 <= points config -> 0 < duration config ->
  Scenario.clockOrdered t ops ->
  Forall (fun o => Scenario.costOk o.2) ops ->
  Scenario.cacheWithin config t st ->
  forall pre post, ops = pre ++ post ->
    exists st1,
      Scenario.run self config pre st = (inr tt, st1)
      /\ forall k e, cache st1 !! k = Some e ->
           0 <= tokens (data e) /\ tokens (data e) <= points config.
Proof.
  intros Hp Hd Hclock Hcost Hw pre post ->.
  apply clockOrdered_prefix in Hclock. apply Forall_app in Hcost as [Hcost _].
  destruct (within_run self config Hp Hd pre st t Hw Hclock Hcost)
    as (st1 & t' & Hr & Hw').
  exists st1. split; [exact Hr|].
  intros k e He. destruct (Hw' k e He) as (H1 & H2 & _). auto.
Qed.

(** ** The limiter *)

Section LimiterFacts.
Context {T S : Type} `{IRateLimitStrategy T S}.
Variables (self : RateLimiter T) (now : number).

(** What the [catch] block of [consume] does with a thrown error. *)
Lemma consume_handler error (st : LimiterState S) :
  (await_ Limiter.logError
            ("RateLimter.consume error: " +:+ Limiter.toString error) ;;
   await_ Limiter.reportError self error ;;
   ret (Limiter.failOpen self now)) st
  = (inr (Limiter.failOpen self now),
     {| storage := storage st;
        bypassList := bypassList st;
        onErrorCalls :=
          onErrorCalls st ++ (if onError self then [error] else []);
        loggedErrors :=
          loggedErrors st
          ++ ["RateLimter.consume error: " +:+ Limiter.toString error] |}).
Proof.
  unfold bind, ret, Limiter.logError, Limiter.reportError.
  destruct (onError self); cbn; [reflexivity|].
  rewrite app_nil_r. reflexivity.
Qed.

(** A call for an identifier on the bypass list. *)
Lemma consume_bypassed identifier pts config namespace (st : LimiterState S) :
  Limiter.sanitizeIdentifier identifier ∈ bypassList st ->
  Limiter.consume self now identifier pts config namespace st
  = (inr (Limiter.bypassResult now), st).
Proof.
  intros Hin. unfold Limiter.consume, try_catch, bind, Limiter.shouldBypass.
  rewrite bool_decide_eq_true_2 by exact Hin. reflexivity.
Qed.

(** A call that reaches the strategy. *)
Lemma consume_delegates identifier pts config namespace (st : LimiterState S) :
  Limiter.sanitizeIdentifier identifier ∉ bypassList st ->
  Limiter.consume self now identifier pts config namespace st
  = try_catch
      (Limiter.on_storage
         (strategy_consume (strategy self) now
            (keyGenerator self (Limiter.sanitizeIdentifier identifier)
               namespace)
            (default 1 pts)
            (Limiter.mergeConfig (defaultConfig self) config)))
      (fun error =>
         await_ Limiter.logError
                  ("RateLimter.consume error: " +:+ Limiter.toString error) ;;
         await_ Limiter.reportError self error ;;
         ret (Limiter.failOpen self now))
      st.
Proof.
  intros Hnin. unfold Limiter.consume, try_catch, bind, Limiter.shouldBypass.
  rewrite bool_decide_eq_false_2 by exact Hnin. reflexivity.
Qed.

End LimiterFacts.

(** C2.  When the strategy (and through it the storage) throws during
    [consume], the limiter does not pass the exception on: it returns
    [allowed = true] with [remaining] and [limit] both the [points] of the
    default configuration and [retryAfter = 0], and a registered [onError]
    callback receives that error exactly once. *)
Theorem limiter_consume_fails_open
    {T S : Type} `{IRateLimitStrategy T S}
    (self : RateLimiter T) (now : number) (identifier : string)
    (pts : option number) (config : option PartialConfig)
    (namespace : option string) (st : LimiterState S) (e : Error) (s' : S) :
  Limiter.sanitizeIdentifier identifier ∉ bypassList st ->
  strategy_consume (strategy self) now
    (keyGenerator self (Limiter.sanitizeIdentifier identifier) namespace)
    (default 1 pts) (Limiter.mergeConfig (defaultConfig self) config)
    (storage st) = (inl e, s') ->
  exists r st',
    Limiter.consume self now identifier pts config namespace st = (inr r, st')
    /\ allowed r = true
    /\ remaining r = points (defaultConfig self)
    /\ limit r = points (defaultConfig self)
    /\ retryAfter r = 0
    /\ isBlocked r = None
    /\ onErrorCalls st'
       = onErrorCalls st ++ (if onError self then [e] else [])
    /\ storage st' = s'
    /\ bypassList st' = bypassList st.
Proof.
  intros Hnin Hthrow.
  exists (Limiter.failOpen self now). eexists. split.
  - rewrite consume_delegates by exact Hnin.
    unfold try_catch, Limiter.on_storage. rewrite Hthrow.
    apply consume_handler.
  - cbn. repeat split; reflexivity.
Qed.

(** ** Bypass list *)

Section Bypass.
Context {T S : Type} `{IRateLimitStrategy T S}.
Variables (self : RateLimiter T) (now : number).

(** An identifier that sanitization leaves as it is, once added, is
    answered from the bypass list in every state, with no effect on the
    storage or on anything else the limiter owns. *)
Lemma bypass_honoured_when_sanitized identifier pts config namespace
    (st : LimiterState S) :
  Limiter.sanitizeIdentifier identifier = identifier ->
  Limiter.consume self now identifier pts config namespace
    (Limiter.addBypass identifier st)
  = (inr (Limiter.bypassResult now), Limiter.addBypass identifier st).
Proof.
  intros Hsafe. apply consume_bypassed. rewrite Hsafe.
  cbn [Limiter.addBypass bypassList].
  apply elem_of_union. left. apply elem_of_singleton. reflexivity.
Qed.

(** After [removeBypass] the call reaches the strategy again. *)
Lemma bypass_removed identifier pts config namespace (st : LimiterState S) :
  Limiter.sanitizeIdentifier identifier = identifier ->
  Limiter.consume self now identifier pts config namespace
    (Limiter.removeBypass identifier st)
  = try_catch
      (Limiter.on_storage
         (strategy_consume (strategy self) now
            (keyGenerator self identifier namespace) (default 1 pts)
            (Limiter.mergeConfig (defaultConfig self) config)))
      (fun error =>
         await_ Limiter.logError
                  ("RateLimter.consume error: " +:+ Limiter.toString error) ;;
         await_ Limiter.reportError self error ;;
         ret (Limiter.failOpen self now))
      (Limiter.removeBypass identifier st).
Proof.
  intros Hsafe. rewrite consume_delegates.
  - rewrite Hsafe. reflexivity.
  - rewrite Hsafe. cbn [Limiter.removeBypass bypassList].
    intros [_ Hn]%elem_of_difference. apply Hn, elem_of_singleton.
    reflexivity.
Qed.

End Bypass.

(** C6 (the code departs from it).  [addBypass] stores the identifier as
    given, while [consume] looks up the sanitized identifier.  With the
    default configuration (5 points per 60 s) and an empty in-memory
    backend, after [addBypass "1.2.3.4:443"] six calls of
    [consume "1.2.3.4:443"] are evaluated against the bucket: the limit
    reported is 5, not the sentinel, the storage is written, and the sixth
    call is rejected. *)
Theorem bypass_misses_unsanitized_identifier :
  let limiter := Limiter.new None None false in
  let st0 :=
    Limiter.addBypass "1.2.3.4:443"
      (Limiter.init (Memory.new None)) in
  "1.2.3.4:443"%string ∈ bypassList st0
  /\ exists rs st',
       Scenario.repeatCall 6
         (Limiter.consume limiter 1000 "1.2.3.4:443" None None None) st0
       = (inr rs, st')
       /\ map allowed rs = [true; true; true; true; true; false]
       /\ map limit rs = [5; 5; 5; 5; 5; 5]
       /\ map remaining rs = [4; 3; 2; 1; 0; 0]
       /\ is_Some (cache (storage st') !! "ratelimit:tb:1.2.3.4_443"%string).
Proof.
  cbn zeta. split.
  - cbn [Limiter.addBypass bypassList].
    apply elem_of_union. left. apply elem_of_singleton. reflexivity.
  - eexists _, _. split; [vm_compute; reflexivity|].
    repeat split; vm_compute; eauto.
Qed.

(** ** Storage keys *)

Lemma length_app (a b : string) :
  String.length (a +:+ b) = (String.length a + String.length b)%nat.
Proof.
  induction a as [|c a IH]; [reflexivity|].
  change (Datatypes.S (String.length (a +:+ b))
          = Datatypes.S (String.length a + String.length b)).
  rewrite IH. reflexivity.
Qed.

Lemma app_inj_r (a b s : string) : a +:+ s = b +:+ s -> a = b.
Proof.
  revert b. induction a as [|c a IH]; intros [|c' b] Heq.
  - reflexivity.
  - exfalso. apply (f_equal String.length) in Heq.
    change (String.length s = Datatypes.S (String.length (b +:+ s))) in Heq.
    rewrite length_app in Heq. lia.
  - exfalso. apply (f_equal String.length) in Heq.
    change (Datatypes.S (String.length (a +:+ s)) = String.length s) in Heq.
    rewrite length_app in Heq. lia.
  - change (String c (a +:+ s) = String c' (b +:+ s)) in Heq.
    injection Heq as -> Heq. f_equal. apply IH. exact Heq.
Qed.

Lemma app_longer (a s : string) : a <> ""%string -> a +:+ s <> s.
Proof.
  intros Ha Heq. apply (f_equal String.length) in Heq.
  rewrite length_app in Heq. destruct a; [congruence | cbn in Heq; lia].
Qed.

Lemma defaultKeyGenerator_named identifier ns :
  ns <> ""%string ->
  Limiter.defaultKeyGenerator identifier (Some ns)
  = (ns +:+ ":" +:+ identifier)%string.
Proof.
  intros Hns. unfold Limiter.defaultKeyGenerator.
  destruct (decide (ns = ""%string)); [contradiction | reflexivity].
Qed.

Lemma defaultKeyGenerator_unnamed identifier ns :
  ns = None \/ ns = Some ""%string ->
  Limiter.defaultKeyGenerator identifier ns = identifier.
Proof. intros [-> | ->]; reflexivity. Qed.

Lemma app_assoc' (a b c : string) : (a +:+ b) +:+ c = a +:+ (b +:+ c).
Proof.
  induction a as [|x a IH]; [reflexivity|].
  change (String x ((a +:+ b) +:+ c) = String x (a +:+ (b +:+ c))).
  rewrite IH. reflexivity.
Qed.

Lemma defaultKeyGenerator_separates identifier ns1 ns2 :
  ns1 <> ns2 ->
  (ns1 <> None /\ ns1 <> Some ""%string)
  \/ (ns2 <> None /\ ns2 <> Some ""%string) ->
  Limiter.defaultKeyGenerator identifier ns1
  <> Limiter.defaultKeyGenerator identifier ns2.
Proof.
  intros Hne Hnamed.
  assert (Hcase : forall ns : option string,
             (exists a, ns = Some a /\ a <> ""%string)
             \/ (ns = None \/ ns = Some ""%string)).
  { intros [a|]; [|auto]. destruct (decide (a = ""%string)) as [->|Ha]; eauto. }
  destruct (Hcase ns1) as [(a & -> & Ha)|H1], (Hcase ns2) as [(b & -> & Hb)|H2].
  - rewrite !defaultKeyGenerator_named by assumption. intros Heq.
    rewrite <- !app_assoc' in Heq. apply app_inj_r, app_inj_r in Heq. congruence.
  - rewrite defaultKeyGenerator_named, (defaultKeyGenerator_unnamed _ ns2)
      by assumption.
    rewrite <- app_assoc'. apply app_longer. destruct a; [congruence | discriminate].
  - rewrite (defaultKeyGenerator_unnamed _ ns1), defaultKeyGenerator_named
      by assumption.
    rewrite <- app_assoc'. intros Heq. symmetry in Heq. revert Heq.
    apply app_longer. destruct b; [congruence | discriminate].
  - exfalso. destruct Hnamed as [[Hn He]|[Hn He]]; tauto.
Qed.

Lemma tokenBucket_buildKey_inj self k1 k2 :
  TokenBucket.buildKey self k1 = TokenBucket.buildKey self k2 -> k1 = k2.
Proof.
  unfold TokenBucket.buildKey. intros Heq.
  apply (inj (String.app _)) in Heq. apply (inj (String.app _)) in Heq.
  exact Heq.
Qed.

(** [consume] on one identifier leaves the entries of all other
    identifiers in the in-memory backend untouched. *)
Lemma consume_frame self now k1 k2 pts config (st : MemoryRateLimitStorage) :
  k1 <> k2 ->
  cache (TokenBucket.consume self now k1 pts config st).2
    !! Memory.buildKey st (TokenBucket.buildKey self k2)
  = cache st !! Memory.buildKey st (TokenBucket.buildKey self k2).
Proof.
  intros Hne.
  assert (Hfk : Memory.buildKey st (TokenBucket.buildKey self k1)
                <> Memory.buildKey st (TokenBucket.buildKey self k2)).
  { intros Heq. apply memory_buildKey_inj, tokenBucket_buildKey_inj in Heq.
    contradiction. }
  assert (Hget : forall stored s1,
             Memory.get now (TokenBucket.buildKey self k1) st = (inr stored, s1) ->
             Memory.buildKey s1 (TokenBucket.buildKey self k1)
             = Memory.buildKey st (TokenBucket.buildKey self k1)
             /\ cache s1 !! Memory.buildKey st (TokenBucket.buildKey self k2)
                = cache st !! Memory.buildKey st (TokenBucket.buildKey self k2)).
  { intros stored s1. unfold Memory.get.
    destruct (cache st !! _) as [e|]; [destruct (Num.ltb (expiresAt e) now)|];
      intros [= <- <-]; split; try reflexivity.
    cbn [cache Memory.with_cache]. apply lookup_delete_ne. exact Hfk. }
  destruct (TokenBucket.consume self now k1 pts config st) as [out st'] eqn:Hc.
  destruct (@consume_cases _ memory_storage self now k1 pts config st _ _ Hc)
    as [(e & Hg & _)|(stored & s1 & Hg & Hcase)].
  { cbn [storage_get memory_storage] in Hg.
    destruct (memory_get_total now (TokenBucket.buildKey self k1) st)
      as (? & ? & Hg'). congruence. }
  cbn [storage_get memory_storage] in Hg.
  destruct (Hget stored s1 Hg) as [Hk Hl]. cbn [snd].
  destruct Hcase as [(_ & _ & ->)|[(_ & _ & Hset)|(_ & _ & Hset)]].
  - exact Hl.
  - unfold bind, ret in Hset. cbn [storage_set memory_storage] in Hset.
    rewrite memory_set_state in Hset. injection Hset as _ <-.
    cbn [cache Memory.with_cache]. rewrite Hk, lookup_insert_ne by exact Hfk.
    exact Hl.
  - unfold bind, ret in Hset. cbn [storage_set memory_storage] in Hset.
    rewrite memory_set_state in Hset. injection Hset as _ <-.
    cbn [cache Memory.with_cache]. rewrite Hk, lookup_insert_ne by exact Hfk.
    exact Hl.
Qed.

(** Every limiter operation depends on the identifier only through its
    sanitized form. *)
Lemma limiter_ops_respect_sanitize {T S : Type} `{IRateLimitStrategy T S}
    (self : RateLimiter T) now id1 id2 pts config ns dur :
  Limiter.sanitizeIdentifier id1 = Limiter.sanitizeIdentifier id2 ->
  Limiter.consume self now id1 pts config ns
  = Limiter.consume self now id2 pts config ns
  /\ Limiter.getStatus self now id1 config ns
     = Limiter.getStatus self now id2 config ns
  /\ Limiter.reset self id1 ns = Limiter.reset self id2 ns
  /\ Limiter.block self now id1 dur ns = Limiter.block self now id2 dur ns
  /\ Limiter.isBlocked self now id1 ns = Limiter.isBlocked self now id2 ns.
Proof.
  intros Hs.
  unfold Limiter.consume, Limiter.getStatus, Limiter.reset, Limiter.block,
    Limiter.isBlocked.
  rewrite Hs. repeat split; reflexivity.
Qed.

(** The storage after a limiter [consume] over the in-memory backend is
    either the one before or the one the token-bucket [consume] leaves. *)
Lemma limiter_consume_storage (self : RateLimiter TokenBucketStrategy)
    now identifier pts config ns (st : LimiterState MemoryRateLimitStorage) :
  storage (Limiter.consume self now identifier pts config ns st).2 = storage st
  \/ storage (Limiter.consume self now identifier pts config ns st).2
     = (TokenBucket.consume (strategy self) now
          (keyGenerator self (Limiter.sanitizeIdentifier identifier) ns)
          (default 1 pts) (Limiter.mergeConfig (defaultConfig self) config)
          (storage st)).2.
Proof.
  destruct (decide (Limiter.sanitizeIdentifier identifier ∈ bypassList st))
    as [Hin|Hnin].
  - left. rewrite consume_bypassed by exact Hin. reflexivity.
  - right. rewrite consume_delegates by exact Hnin.
    unfold try_catch, Limiter.on_storage.
    cbn [strategy_consume token_bucket_strategy].
    destruct (TokenBucket.consume _ _ _ _ _ (storage st)) as [[e|r] s'].
    + rewrite consume_handler. reflexivity.
    + reflexivity.
Qed.

(** C7, the part that fails as stated: a call without namespace and a call
    with the empty string as namespace carry different namespace values,
    yet the default key generator gives both the bare identifier, and the
    two calls draw on one bucket. *)
Lemma empty_namespace_shares_bucket_with_none :
  let limiter := Limiter.new None None false in
  let st0 := Limiter.init (Memory.new None) in
  (None : option string) <> Some ""%string
  /\ Limiter.defaultKeyGenerator "user" None
     = Limiter.defaultKeyGenerator "user" (Some ""%string)
  /\ exists r1 st1 r2 st2,
       Limiter.consume limiter 1000 "user" None None None st0 = (inr r1, st1)
       /\ Limiter.consume limiter 1000 "user" None None (Some ""%string) st1
          = (inr r2, st2)
       /\ remaining r1 = 4 /\ remaining r2 = 3.
Proof.
  cbn zeta. split; [discriminate|]. split; [reflexivity|].
  eexists _, _, _, _. split; [vm_compute; reflexivity|].
  split; [vm_compute; reflexivity|]. split; reflexivity.
Qed.

(** C7, amended.  Identifiers that sanitize to the same string (such as
    "1.2.3.4:443" and "1.2.3.4_443") are the same to every limiter
    operation with the same namespace: one key, one bucket.  With the
    default key generator, two namespace values of which at least one is a
    non-empty string give one identifier two different keys, also as the
    strategy and the in-memory backend prefix them, and a [consume] under
    one leaves the entry of the other untouched. *)
Theorem sanitized_key_shared_namespaces_apart
    (self : RateLimiter TokenBucketStrategy) (now : number)
    (id1 id2 : string) (pts : option number) (config : option PartialConfig)
    (ns ns' : option string) (dur : number)
    (st : LimiterState MemoryRateLimitStorage) :
  Limiter.sanitizeIdentifier "1.2.3.4:443"
  = Limiter.sanitizeIdentifier "1.2.3.4_443"
  /\ (Limiter.sanitizeIdentifier id1 = Limiter.sanitizeIdentifier id2 ->
      keyGenerator self (Limiter.sanitizeIdentifier id1) ns
      = keyGenerator self (Limiter.sanitizeIdentifier id2) ns
      /\ Limiter.consume (S:=MemoryRateLimitStorage) self now id1 pts config ns
         = Limiter.consume self now id2 pts config ns
      /\ Limiter.getStatus (S:=MemoryRateLimitStorage) self now id1 config ns
         = Limiter.getStatus self now id2 config ns
      /\ Limiter.reset (S:=MemoryRateLimitStorage) self id1 ns
         = Limiter.reset self id2 ns
      /\ Limiter.block (S:=MemoryRateLimitStorage) self now id1 dur ns
         = Limiter.block self now id2 dur ns
      /\ Limiter.isBlocked (S:=MemoryRateLimitStorage) self now id1 ns
         = Limiter.isBlocked self now id2 ns)
  /\ (keyGenerator self = Limiter.defaultKeyGenerator ->
      ns <> ns' ->
      (ns <> None /\ ns <> Some ""%string)
      \/ (ns' <> None /\ ns' <> Some ""%string) ->
      let k := keyGenerator self (Limiter.sanitizeIdentifier id1) ns in
      let k' := keyGenerator self (Limiter.sanitizeIdentifier id1) ns' in
      k <> k'
      /\ Memory.buildKey (storage st) (TokenBucket.buildKey (strategy self) k)
         <> Memory.buildKey (storage st)
              (TokenBucket.buildKey (strategy self) k')
      /\ cache (storage (Limiter.consume self now id1 pts config ns st).2)
           !! Memory.buildKey (storage st)
                (TokenBucket.buildKey (strategy self) k')
         = cache (storage st)
             !! Memory.buildKey (storage st)
                  (TokenBucket.buildKey (strategy self) k')).
Proof.
  split; [reflexivity|]. split.
  - intros Hs. split; [rewrite Hs; reflexivity|].
    apply (limiter_ops_respect_sanitize self now id1 id2 pts config ns dur Hs).
  - intros Hgen Hne Hnamed k k'.
    assert (Hk : k <> k').
    { unfold k, k'. rewrite Hgen.
      apply defaultKeyGenerator_separates; assumption. }
    split; [exact Hk|]. split.
    + intros Heq. apply memory_buildKey_inj, tokenBucket_buildKey_inj in Heq.
      contradiction.
    + destruct (limiter_consume_storage self now id1 pts config ns st)
        as [-> | ->]; [reflexivity|].
      apply consume_frame. exact Hk.
Qed.

(** * The theorems at concrete inputs *)

(** C1 at [P = 3]: three calls pass with 2, 1 and 0 remaining, the fourth
    is rejected. *)
Lemma drain_from_fresh_witness :
  exists rs st',
    Scenario.consumeTimes (Z.to_nat 3 + 1) Demo.tb 1000 "alice" 1
      {| points := 3; duration := 60; blockDuration := None;
         keyPrefix := None; consumeOnFailure := None |} Demo.empty
    = (inr rs, st')
    /\ (forall i : Z, (1 <= i <= 3)%Z ->
        exists r, rs !! Z.to_nat (i - 1) = Some r /\ allowed r = true
                  /\ remaining r = inject_Z (3 - i))
    /\ (exists r, rs !! Z.to_nat 3 = Some r /\ allowed r = false
                  /\ remaining r = 0).
Proof.
  apply (drain_from_fresh Demo.tb 1000 "alice"
           {| points := 3; duration := 60; blockDuration := None;
              keyPrefix := None; consumeOnFailure := None |} 3 Demo.empty).
  - reflexivity.
  - lia.
  - reflexivity.
  - vm_compute. reflexivity.
Defined.

(** C2 with a backend whose [get] errors. *)
Lemma limiter_consume_fails_open_witness :
  exists r st',
    Limiter.consume Demo.limiter 1000 "alice" None None None Demo.faulty
    = (inr r, st')
    /\ allowed r = true
    /\ remaining r = 5
    /\ limit r = 5
    /\ retryAfter r = 0
    /\ isBlocked r = None
    /\ onErrorCalls st' = [mkError "storage get failed"]
    /\ storage st' = storage Demo.faulty
    /\ bypassList st' = bypassList Demo.faulty.
Proof.
  apply (limiter_consume_fails_open Demo.limiter 1000 "alice" None None None
           Demo.faulty (mkError "storage get failed") (storage Demo.faulty)).
  - cbn. apply not_elem_of_empty.
  - vm_compute. reflexivity.
Defined.

(** C3 on the bucket that ten calls have emptied, five seconds later. *)
Lemma refill_precedes_balance_check_witness :
  exists r st',
    TokenBucket.consume Demo.tb 6000 "alice" 1 Demo.config10 Demo.drained
    = (inr r, st')
    /\ allowed r = true /\ remaining r = 4.
Proof.
  apply (refill_precedes_balance_check Demo.tb 6000 "alice" 1 Demo.config10
           Demo.drained Demo.drainedRecord).
  - vm_compute. reflexivity.
  - vm_compute. reflexivity.
  - reflexivity.
  - reflexivity.
  - vm_compute. reflexivity.
  - vm_compute. reflexivity.
Defined.

(** C4: nineteen seconds into a block of thirty. *)
Lemma block_escalation_witness :
  TokenBucket.isBlocked Demo.tb 20000 "alice" Demo.blocked
  = (inr true, Demo.blocked)
  /\ forall pts' config',
       exists r',
         TokenBucket.consume Demo.tb 20000 "alice" pts' config' Demo.blocked
         = (inr r', Demo.blocked)
         /\ allowed r' = false /\ isBlocked r' = Some true
         /\ remaining r' = 0.
Proof.
  apply (block_escalation Demo.tb 1000 "alice" 1 Demo.blockingConfig 30
           Demo.spentOnce Demo.blocked Demo.rejected).
  - reflexivity.
  - reflexivity.
  - vm_compute. discriminate.
  - vm_compute. reflexivity.
  - vm_compute. reflexivity.
  - vm_compute. reflexivity.
  - vm_compute. discriminate.
  - vm_compute. reflexivity.
Defined.

(** C5 on that blocked bucket: eleven seconds are left of the block. *)
Lemma consume_blocked_short_circuit_witness :
  TokenBucket.consume Demo.tb 20000 "alice" 5 Demo.config10 Demo.blocked
  = (inr {| allowed := false;
            remaining := 0;
            limit := 10;
            resetAt := 31000;
            retryAfter := 11;
            result_consumed := 1;
            isBlocked := Some true |}, Demo.blocked).
Proof.
  pose proof (consume_blocked_short_circuit (S:=MemoryRateLimitStorage)
                Demo.tb 20000 "alice" 5 Demo.config10 Demo.blocked
                Demo.blocked [] Demo.blockedRecord 31000) as Hthm.
  destruct Hthm as [Hres _].
  - vm_compute. reflexivity.
  - vm_compute. reflexivity.
  - reflexivity.
  - vm_compute. discriminate.
  - exact Hres.
Defined.

(** C7 (amended) for "1.2.3.4:443" and "1.2.3.4_443", namespace "api"
    against no namespace. *)
Lemma sanitized_key_shared_namespaces_apart_witness :
  Limiter.consume (S:=MemoryRateLimitStorage) Demo.limiter 1000
    "1.2.3.4:443" None None (Some "api"%string)
  = Limiter.consume Demo.limiter 1000 "1.2.3.4_443" None None
      (Some "api"%string)
  /\ keyGenerator Demo.limiter (Limiter.sanitizeIdentifier "1.2.3.4:443")
       (Some "api"%string)
     <> keyGenerator Demo.limiter (Limiter.sanitizeIdentifier "1.2.3.4:443")
          None.
Proof.
  pose proof (sanitized_key_shared_namespaces_apart Demo.limiter 1000
                "1.2.3.4:443" "1.2.3.4_443" None None (Some "api"%string)
                None 0 (Limiter.init Demo.empty)) as (_ & Hshared & Hapart).
  split.
  - apply Hshared. reflexivity.
  - apply Hapart.
    + reflexivity.
    + discriminate.
    + left. split; discriminate.
Defined.

(** C8 on the emptied bucket, five seconds later: the preview reports five
    tokens and the backend is the same afterwards. *)
Lemma getStatus_read_only_witness :
  exists r,
    TokenBucket.getStatus Demo.tb 6000 "alice" Demo.config10 Demo.drained
    = (inr r, Demo.drained)
    /\ remaining r = 5
    /\ forall rc s2,
         TokenBucket.consume Demo.tb 6000 "alice" 1 Demo.config10 Demo.drained
         = (inr rc, s2) ->
         allowed rc = allowed r /\ isBlocked rc = isBlocked r
         /\ remaining rc == (if allowed rc then remaining r - 1 else remaining r).
Proof.
  pose proof (getStatus_read_only (S:=MemoryRateLimitStorage) Demo.tb 6000
                "alice" Demo.config10 Demo.drained [] Demo.drained)
    as (_ & _ & _ & Hstored & _).
  destruct (Hstored Demo.drainedRecord Demo.drained) as (r & Hgs & _ & Hfree).
  - vm_compute. reflexivity.
  - exists r. split; [exact Hgs|].
    destruct Hfree as [Hrem Hsame]; [vm_compute; reflexivity|].
    split; [|exact Hsame].
    rewrite Hrem. vm_compute. reflexivity.
Defined.

(** C9 on a sequence that mixes all five calls over two identifiers. *)
Lemma stored_tokens_within_capacity_witness :
  exists st1,
    Scenario.run Demo.tb Demo.blockingConfig Demo.calls Demo.empty
    = (inr tt, st1)
    /\ forall k e, cache st1 !! k = Some e ->
         0 <= tokens (data e)
         /\ tokens (data e) <= points Demo.blockingConfig.
Proof.
  apply (stored_tokens_within_capacity Demo.tb Demo.blockingConfig Demo.calls
           Demo.empty 0 ltac:(vm_compute; discriminate) ltac:(reflexivity))
    with (post := []).
  - vm_compute. repeat split; discriminate.
  - repeat constructor; vm_compute; discriminate.
  - intros k e He. cbn in He. rewrite lookup_empty in He. discriminate.
  - reflexivity.
Defined.

(** C10 on the call that writes the block: rejected, [isBlocked] absent,
    and the record it stores is blocked until 31000. *)
Lemma consume_isBlocked_only_for_stored_block_witness :
  isBlocked Demo.rejected = None
  /\ allowed Demo.rejected = false
  /\ blockUntil Demo.blockedRecord = Some 31000.
Proof.
  pose proof (consume_isBlocked_only_for_stored_block
                (S:=MemoryRateLimitStorage) Demo.tb 1000 "alice" 1
                Demo.blockingConfig Demo.spentOnce Demo.blocked Demo.rejected)
    as Hthm.
  destruct Hthm as (stored & s1 & Hget & Hcase).
  - vm_compute. reflexivity.
  - destruct Hcase as [(Hb & _)|(Hnone & _)].
    + vm_compute in Hb. discriminate.
    + split; [exact Hnone|]. split; vm_compute; reflexivity.
Defined.


(** * Further properties of the code *)

(** ** In-memory backend: entries, expiry and sweep *)

(** X1.  What [set] stores under a key, [get] returns for that key at every
    clock value up to [now + ttl * 1000] inclusive, leaving the backend as
    it is; at any later clock value [get] returns nothing and removes the
    entry.  Other keys are answered as before the [set]. *)
Theorem memory_set_then_get
    (now t ttl : number) (key : string) (d : RateLimitData)
    (st : MemoryRateLimitStorage) :
  let st1 := (Memory.set now key d ttl st).2 in
  (t <= now + ttl * 1000 -> Memory.get t key st1 = (inr (Some d), st1))
  /\ (now + ttl * 1000 < t ->
      (Memory.get t key st1).1 = inr None
      /\ cache (Memory.get t key st1).2 !! Memory.buildKey st key = None)
  /\ (forall other, other <> key ->
        (Memory.get t other st1).1 = (Memory.get t other st).1).
Proof.
  intros st1. split; [|split].
  - intros Hle. apply memory_get_after_set. exact Hle.
  - intros Hlt. unfold st1, Memory.get. rewrite memory_set_state.
    cbn [snd cache Memory.with_cache]. rewrite memory_buildKey_with_cache.
    rewrite lookup_insert_eq. cbn [expiresAt].
    apply ltb_lt in Hlt. rewrite Hlt. cbn [fst snd cache Memory.with_cache].
    split; [reflexivity | apply lookup_delete_eq].
  - intros other Hne. unfold st1, Memory.get. rewrite memory_set_state.
    cbn [snd cache Memory.with_cache]. rewrite memory_buildKey_with_cache.
    rewrite lookup_insert_ne.
    + destruct (cache st !! Memory.buildKey st other) as [e|]; [|reflexivity].
      destruct (Num.ltb (expiresAt e) t); reflexivity.
    + intros Heq. apply memory_buildKey_inj in Heq. congruence.
Qed.

Lemma memory_set_then_get_witness :
  let st1 := (Memory.set 1000 "k" (TokenBucket.fresh Demo.config10 1000) 10
                Demo.empty).2 in
  Memory.get 11000 "k" st1
  = (inr (Some (TokenBucket.fresh Demo.config10 1000)), st1)
  /\ (Memory.get 11001 "k" st1).1 = inr None.
Proof.
  pose proof (memory_set_then_get 1000 11000 10 "k"
                (TokenBucket.fresh Demo.config10 1000) Demo.empty)
    as (Hlive & _ & _).
  pose proof (memory_set_then_get 1000 11001 10 "k"
                (TokenBucket.fresh Demo.config10 1000) Demo.empty)
    as (_ & Hdead & _).
  split.
  - apply Hlive. vm_compute. discriminate.
  - apply Hdead. reflexivity.
Defined.

(** X2.  After [delete] of a key, [get] of that key returns nothing; the
    entries of all other keys stay; deleting again, or deleting a key that
    has no entry, changes nothing. *)
Theorem memory_delete_forgets
    (t : number) (key : string) (st : MemoryRateLimitStorage) :
  let st1 := (Memory.delete key st).2 in
  Memory.get t key st1 = (inr None, st1)
  /\ (forall other, other <> key ->
        cache st1 !! Memory.buildKey st other
        = cache st !! Memory.buildKey st other)
  /\ Memory.delete key st1 = (inr tt, st1)
  /\ (cache st !! Memory.buildKey st key = None -> st1 = st).
Proof.
  intros st1. unfold st1. cbn [Memory.delete snd].
  split; [|split; [|split]].
  - apply memory_get_absent. rewrite memory_buildKey_with_cache.
    cbn [cache Memory.with_cache]. apply lookup_delete_eq.
  - intros other Hne. cbn [cache Memory.with_cache].
    apply lookup_delete_ne. intros Heq.
    apply memory_buildKey_inj in Heq. congruence.
  - unfold Memory.delete. rewrite memory_buildKey_with_cache.
    cbn [cache Memory.with_cache]. unfold Memory.with_cache.
    cbn [storage_keyPrefix]. rewrite delete_delete_eq. reflexivity.
  - intros Hnone. destruct st as [prefix c]. unfold Memory.with_cache.
    cbn [storage_keyPrefix cache] in *. f_equal. apply delete_id. exact Hnone.
Qed.

Lemma memory_delete_forgets_witness :
  (Memory.delete "nobody" Demo.drained).2 = Demo.drained.
Proof.
  pose proof (memory_delete_forgets 0 "nobody" Demo.drained) as (_ & _ & _ & H).
  apply H. vm_compute. reflexivity.
Defined.

(** X3.  [cleanup] at clock value [now] keeps exactly the entries whose
    expiry is not before [now]; it never adds an entry, and every [get] at
    a clock value from [now] on answers as it would have without the
    sweep. *)
Theorem memory_cleanup_only_drops_expired
    (now : number) (st : MemoryRateLimitStorage) :
  (forall k e,
      cache (Memory.cleanup now st) !! k = Some e
      <-> cache st !! k = Some e /\ now <= expiresAt e)
  /\ (Memory.size (Memory.cleanup now st) <= Memory.size st)%nat
  /\ (forall key t, now <= t ->
        (Memory.get t key (Memory.cleanup now st)).1 = (Memory.get t key st).1).
Proof.
  assert (Hlook : forall k e,
             cache (Memory.cleanup now st) !! k = Some e
             <-> cache st !! k = Some e /\ now <= expiresAt e).
  { intros k e. unfold Memory.cleanup. cbn [cache Memory.with_cache].
    rewrite map_lookup_filter_Some. cbn [snd]. rewrite ltb_ge. reflexivity. }
  split; [exact Hlook|]. split.
  - unfold Memory.size, Memory.cleanup. cbn [cache Memory.with_cache].
    apply map_subseteq_size, map_filter_subseteq.
  - intros key t Hnt. unfold Memory.get.
    change (Memory.buildKey (Memory.cleanup now st) key)
      with (Memory.buildKey st key).
    destruct (cache st !! Memory.buildKey st key) as [e|] eqn:He.
    + destruct (Qlt_le_dec (expiresAt e) now) as [Hexp|Hlive].
      * assert (Hnone : cache (Memory.cleanup now st) !! Memory.buildKey st key
                        = None).
        { destruct (cache (Memory.cleanup now st) !! Memory.buildKey st key)
            as [e'|] eqn:He'; [|reflexivity].
          apply Hlook in He' as [He' Hle]. rewrite He in He'.
          injection He' as <-. lra. }
        rewrite Hnone.
        assert (Ht : Num.ltb (expiresAt e) t = true) by (apply ltb_lt; lra).
        rewrite Ht. reflexivity.
      * assert (Hsome : cache (Memory.cleanup now st) !! Memory.buildKey st key
                        = Some e) by (apply Hlook; auto).
        rewrite Hsome. destruct (Num.ltb (expiresAt e) t); reflexivity.
    + assert (Hnone : cache (Memory.cleanup now st) !! Memory.buildKey st key
                      = None).
      { destruct (cache (Memory.cleanup now st) !! Memory.buildKey st key)
          as [e'|] eqn:He'; [|reflexivity].
        apply Hlook in He' as [He' _]. congruence. }
      rewrite Hnone. reflexivity.
Qed.

Lemma memory_cleanup_only_drops_expired_witness :
  (Memory.get 20000 (TokenBucket.buildKey Demo.tb "alice")
     (Memory.cleanup 15000 Demo.blocked)).1
  = (Memory.get 20000 (TokenBucket.buildKey Demo.tb "alice") Demo.blocked).1.
Proof.
  pose proof (memory_cleanup_only_drops_expired 15000 Demo.blocked)
    as (_ & _ & H).
  apply H. vm_compute. discriminate.
Defined.

(** ** Token bucket: reset, manual block, retry hints *)

Lemma ceil_pos (x : number) : 0 < x -> 1 <= Math.ceil x.
Proof.
  intros Hx. unfold Math.ceil. pose proof (Qle_ceiling x) as Hc.
  assert (Hz : (0 < Qceiling x)%Z).
  { rewrite Zlt_Qlt. change (inject_Z 0) with 0. lra. }
  change 1 with (inject_Z 1). rewrite <- Zle_Qle. lia.
Qed.

Lemma refill_fresh_full config now :
  tokens (TokenBucket.refillTokens (TokenBucket.fresh config now) config now)
  == points config.
Proof.
  unfold TokenBucket.refillTokens, TokenBucket.fresh. cbn [tokens lastRefill].
  assert (He : points config
               + (now - now) / 1000 * TokenBucket.getRefillRate config
               == points config) by (unfold Qdiv; ring).
  destruct (min_cases (points config)
              (points config
               + (now - now) / 1000 * TokenBucket.getRefillRate config))
    as [[H1 H2]|[H1 H2]]; rewrite H2; lra.
Qed.


(** [consume] on the in-memory backend for a key that [get] does not find:
    it works on a full bucket. *)
Lemma consume_unknown self now identifier pts config
    (st s1 : MemoryRateLimitStorage) :
  Memory.get now (TokenBucket.buildKey self identifier) st = (inr None, s1) ->
  pts <= points config ->
  exists r st2,
    TokenBucket.consume self now identifier pts config st = (inr r, st2)
    /\ allowed r = true
    /\ remaining r = Math.floor (points config - pts)
    /\ result_consumed r == pts
    /\ isBlocked r = None.
Proof.
  intros Hget Hle.
  pose proof (refill_fresh_full config now) as Hfull.
  assert (Hge : Num.ltb (tokens (TokenBucket.refillTokens
                  (Scenario.loaded None config now) config now)) pts = false).
  { apply ltb_ge. cbn [Scenario.loaded]. lra. }
  eexists _, _. split; [|split; [|split; [|split]]].
  - rewrite (@consume_accepted _ memory_storage self now identifier pts config
               st None s1 Hget eq_refl Hge). reflexivity.
  - reflexivity.
  - cbn [remaining Scenario.acceptedResult Scenario.spent tokens Scenario.loaded].
    unfold Math.floor. rewrite Hfull. reflexivity.
  - cbn. ring.
  - reflexivity.
Qed.

Lemma memory_delete_absent_get now key st :
  Memory.get now key (Memory.delete key st).2
  = (inr None, (Memory.delete key st).2).
Proof.
  apply memory_get_absent. cbn [Memory.delete snd].
  rewrite memory_buildKey_with_cache. cbn [cache Memory.with_cache].
  apply lookup_delete_eq.
Qed.

(** X4.  After [reset], whatever the bucket was (drained, blocked), the
    identifier is as new: [isBlocked] answers false, [getStatus] shows the
    full bucket, and a [consume] whose cost is within the capacity is
    accepted with [remaining = floor (points - cost)] and [consumed =
    cost]. *)
Theorem reset_gives_full_bucket
    (self : TokenBucketStrategy) (now : number) (identifier : string)
    (pts : number) (config : RateLimitConfig) (st : MemoryRateLimitStorage) :
  let st1 := (TokenBucket.reset self identifier st).2 in
  TokenBucket.isBlocked self now identifier st1 = (inr false, st1)
  /\ TokenBucket.getStatus self now identifier config st1
     = (inr {| allowed := true;
               remaining := points config;
               limit := points config;
               resetAt := now;
               retryAfter := 0;
               result_consumed := 0;
               isBlocked := None |}, st1)
  /\ (pts <= points config ->
      exists r st2,
        TokenBucket.consume self now identifier pts config st1 = (inr r, st2)
        /\ allowed r = true
        /\ remaining r = Math.floor (points config - pts)
        /\ result_consumed r == pts
        /\ isBlocked r = None).
Proof.
  intros st1.
  assert (Hget : Memory.get now (TokenBucket.buildKey self identifier) st1
                 = (inr None, st1)).
  { apply memory_delete_absent_get. }
  split; [|split].
  - unfold TokenBucket.isBlocked, bind. cbn [storage_get memory_storage].
    rewrite Hget. reflexivity.
  - unfold TokenBucket.getStatus, bind. cbn [storage_get memory_storage].
    rewrite Hget. reflexivity.
  - intros Hle. apply (consume_unknown self now identifier pts config st1 st1 Hget Hle).
Qed.

Lemma reset_gives_full_bucket_witness :
  exists r st2,
    TokenBucket.consume Demo.tb 20000 "alice" 1 Demo.blockingConfig
      (TokenBucket.reset Demo.tb "alice" Demo.blocked).2 = (inr r, st2)
    /\ allowed r = true
    /\ remaining r = Math.floor (points Demo.blockingConfig - 1)
    /\ result_consumed r == 1
    /\ isBlocked r = None.
Proof.
  pose proof (reset_gives_full_bucket Demo.tb 20000 "alice" 1
                Demo.blockingConfig Demo.blocked) as (_ & _ & H).
  apply H. vm_compute. discriminate.
Defined.

(** X5.  [block] at clock value [now] (not negative) for [dur] seconds
    replaces whatever record there was: at every clock value from [now]
    on and before [now + dur * 1000], [isBlocked] answers true and
    [consume], for any cost and configuration, is refused with
    [isBlocked = true], [consumed = 0], [resetAt = now + dur * 1000] and
    the seconds left, rounded up, as [retryAfter]; neither call changes
    the backend. *)
Theorem manual_block_holds
    (self : TokenBucketStrategy) (now dur later : number)
    (identifier : string) (st : MemoryRateLimitStorage) :
  let st1 := (TokenBucket.block self now identifier dur st).2 in
  0 <= now -> now <= later -> later < now + dur * 1000 ->
  TokenBucket.isBlocked self later identifier st1 = (inr true, st1)
  /\ forall pts config,
       TokenBucket.consume self later identifier pts config st1
       = (inr {| allowed := false;
                 remaining := 0;
                 limit := points config;
                 resetAt := now + dur * 1000;
                 retryAfter := Math.ceil ((now + dur * 1000 - later) / 1000);
                 result_consumed := 0;
                 isBlocked := Some true |}, st1).
Proof.
  intros st1 Hnow Hl1 Hl2.
  set (d := {| tokens := 0; lastRefill := now; consumed := 0;
               blockUntil := Some (now + dur * 1000) |}).
  assert (Hget : Memory.get later (TokenBucket.buildKey self identifier) st1
                 = (inr (Some d), st1)).
  { unfold st1, TokenBucket.block. cbn [storage_set memory_storage].
    apply memory_get_after_set. lra. }
  split.
  - apply (@isBlocked_stored _ memory_storage self later identifier st1 st1 d
             (now + dur * 1000)); [exact Hget | reflexivity | exact Hl2 | lra].
  - intros pts config.
    rewrite (@consume_blocked _ memory_storage self later identifier pts config
               st1 (Some d) st1 Hget).
    + reflexivity.
    + cbn [Scenario.loaded].
      apply (blockedAt_future later d (now + dur * 1000));
        [reflexivity | exact Hl2 | lra].
Qed.

Lemma manual_block_holds_witness :
  TokenBucket.isBlocked Demo.tb 5000 "bob"
    (TokenBucket.block Demo.tb 1000 "bob" 30 Demo.drained).2
  = (inr true, (TokenBucket.block Demo.tb 1000 "bob" 30 Demo.drained).2).
Proof.
  pose proof (manual_block_holds Demo.tb 1000 30 5000 "bob" Demo.drained) as H.
  apply H.
  - vm_compute. discriminate.
  - vm_compute. discriminate.
  - reflexivity.
Defined.

(** X6.  Once a manual block is over, and while its record is still held
    (60 more seconds), the identifier does not get a full bucket back: it
    restarts from zero tokens accrued since the block was set.  [consume]
    is then accepted exactly when the cost is within both the capacity and
    [(later - now) / 1000 * (points / duration)]. *)
Theorem manual_block_leaves_empty_bucket
    (self : TokenBucketStrategy) (now dur later : number)
    (identifier : string) (pts : number) (config : RateLimitConfig)
    (st : MemoryRateLimitStorage) :
  let st1 := (TokenBucket.block self now identifier dur st).2 in
  now + dur * 1000 <= later -> later <= now + (dur + 60) * 1000 ->
  TokenBucket.isBlocked self later identifier st1 = (inr false, st1)
  /\ exists r st2,
       TokenBucket.consume self later identifier pts config st1 = (inr r, st2)
       /\ isBlocked r = None
       /\ (allowed r = true
           <-> pts <= points config
               /\ pts <= (later - now) / 1000 * (points config / duration config)).
Proof.
  intros st1 Hl1 Hl2.
  set (d := {| tokens := 0; lastRefill := now; consumed := 0;
               blockUntil := Some (now + dur * 1000) |}).
  assert (Hget : Memory.get later (TokenBucket.buildKey self identifier) st1
                 = (inr (Some d), st1)).
  { unfold st1, TokenBucket.block. cbn [storage_set memory_storage].
    apply memory_get_after_set. exact Hl2. }
  assert (Hover : Num.ltb later (now + dur * 1000) = false)
    by (apply ltb_ge; exact Hl1).
  assert (Hnb : TokenBucket.blockedAt d later = false).
  { unfold TokenBucket.blockedAt. cbn [blockUntil d]. rewrite Hover.
    apply andb_false_r. }
  split.
  - unfold TokenBucket.isBlocked, bind. cbn [storage_get memory_storage].
    rewrite Hget. cbn [blockUntil d]. rewrite Hover.
    destruct (Num.truthy (now + dur * 1000)); reflexivity.
  - set (t' := tokens (TokenBucket.refillTokens d config later)).
    assert (Ht' : forall x, x <= t'
                  <-> x <= points config
                      /\ x <= (later - now) / 1000
                              * (points config / duration config)).
    { intros x. unfold t'. rewrite refillTokens_tokens. cbn [tokens lastRefill d].
      destruct (min_cases (points config)
                  (0 + (later - now) / 1000 * (points config / duration config)))
        as [[H1 H2]|[H1 H2]]; rewrite H2; split; intros; try split; lra. }
    destruct (Num.ltb t' pts) eqn:Hlt.
    + eexists _, _. split; [|split].
      * rewrite (@consume_rejected _ memory_storage self later identifier pts
                   config st1 (Some d) st1 Hget Hnb Hlt). reflexivity.
      * reflexivity.
      * cbn [allowed Scenario.rejectedResult]. apply ltb_lt in Hlt.
        split; [discriminate|]. intros Hx. apply Ht' in Hx. lra.
    + eexists _, _. split; [|split].
      * rewrite (@consume_accepted _ memory_storage self later identifier pts
                   config st1 (Some d) st1 Hget Hnb Hlt). reflexivity.
      * reflexivity.
      * cbn [allowed Scenario.acceptedResult]. apply ltb_ge in Hlt.
        split; [|reflexivity]. intros _. apply Ht'. exact Hlt.
Qed.

Lemma manual_block_leaves_empty_bucket_witness :
  TokenBucket.isBlocked Demo.tb 35000 "bob"
    (TokenBucket.block Demo.tb 1000 "bob" 30 Demo.empty).2
  = (inr false, (TokenBucket.block Demo.tb 1000 "bob" 30 Demo.empty).2).
Proof.
  pose proof (manual_block_leaves_empty_bucket Demo.tb 1000 30 35000 "bob" 1
                Demo.config10 Demo.empty) as H.
  apply H.
  - vm_compute. discriminate.
  - vm_compute. discriminate.
Defined.

(** X7.  With a valid configuration ([points] and [duration] positive),
    whatever the backend, a result of [consume] with [allowed = true]
    has [retryAfter = 0], and a result with [allowed = false] (blocked or
    out of tokens) has a whole [retryAfter] of at least 1 second and a
    [resetAt] later than [now]. *)
Theorem refusal_carries_retry_hint
    {S : Type} `{IRateLimitStorage S}
    (self : TokenBucketStrategy) (now : number) (identifier : string)
    (pts : number) (config : RateLimitConfig) (s s' : S)
    (r : RateLimitResult) :
  0 < points config -> 0 < duration config ->
  TokenBucket.consume self now identifier pts config s = (inr r, s') ->
  (allowed r = true -> retryAfter r = 0)
  /\ (allowed r = false ->
      1 <= retryAfter r /\ now < resetAt r
      /\ exists z : Z, retryAfter r = inject_Z z).
Proof.
  intros Hp Hd Hc.
  assert (Hrate : 0 < TokenBucket.getRefillRate config).
  { unfold TokenBucket.getRefillRate. apply Qlt_shift_div_l; lra. }
  destruct (consume_cases self now identifier pts config s _ _ Hc)
    as [(e & _ & He)|(stored & s1 & Hget & Hcase)]; [discriminate|].
  destruct Hcase as [(Hb & Hout & ->)|[(Hb & Hlt & Hset)|(Hb & Hlt & Hset)]].
  - injection Hout as ->. split; [discriminate|]. intros _.
    destruct (blockedAt_inv now _ Hb) as (b & Hbu & _ & Hnb).
    cbn [retryAfter resetAt TokenBucket.blockedResult]. rewrite Hbu.
    change (default 0 (Some b)) with b. split; [|split].
    + apply ceil_pos. apply Qlt_shift_div_l; lra.
    + exact Hnb.
    + eexists. reflexivity.
  - unfold bind, ret in Hset.
    destruct (storage_set now _ _ _ s1) as [[e|[]] s2]; [discriminate|].
    injection Hset as <- _. split; [discriminate|]. intros _.
    cbn [retryAfter resetAt Scenario.rejectedResult].
    rewrite applyBlock_tokens. apply ltb_lt in Hlt.
    assert (Hra : 1 <= Math.ceil
                    ((pts - tokens (TokenBucket.refillTokens
                                      (Scenario.loaded stored config now)
                                      config now))
                     / TokenBucket.getRefillRate config)).
    { apply ceil_pos. apply Qlt_shift_div_l; lra. }
    split; [exact Hra|]. split; [lra|]. eexists. reflexivity.
  - unfold bind, ret in Hset.
    destruct (storage_set now _ _ _ s1) as [[e|[]] s2]; [discriminate|].
    injection Hset as <- _. split; [reflexivity | discriminate].
Qed.

Lemma refusal_carries_retry_hint_witness :
  1 <= retryAfter Demo.rejected /\ 1000 < resetAt Demo.rejected.
Proof.
  pose proof (refusal_carries_retry_hint (S:=MemoryRateLimitStorage) Demo.tb
                1000 "alice" 1 Demo.blockingConfig Demo.spentOnce Demo.blocked
                Demo.rejected) as H.
  destruct H as (_ & Hrej).
  - reflexivity.
  - reflexivity.
  - vm_compute. reflexivity.
  - destruct Hrej as (H1 & H2 & _); [vm_compute; reflexivity|].
    split; [exact H1 | exact H2].
Defined.



(** ** Token bucket: refill arithmetic *)






(** ** Token bucket: one identifier at a time *)

Lemma sameElsewhere_refl fk st : Scenario.sameElsewhere fk st st.
Proof. split; [reflexivity | auto]. Qed.

Lemma sameElsewhere_trans fk st st1 st2 :
  Scenario.sameElsewhere fk st st1 -> Scenario.sameElsewhere fk st1 st2 ->
  Scenario.sameElsewhere fk st st2.
Proof.
  intros [Hp1 Hc1] [Hp2 Hc2]. split; [congruence|].
  intros k Hk. rewrite Hc2, Hc1 by exact Hk. reflexivity.
Qed.

Lemma memory_get_elsewhere now key st :
  Scenario.sameElsewhere (Memory.buildKey st key) st (Memory.get now key st).2.
Proof.
  unfold Memory.get.
  destruct (cache st !! Memory.buildKey st key) as [e|];
    [destruct (Num.ltb (expiresAt e) now)|]; cbn [snd];
    try apply sameElsewhere_refl.
  split; [reflexivity|]. intros k Hk. cbn [cache Memory.with_cache].
  apply lookup_delete_ne. congruence.
Qed.

Lemma memory_set_elsewhere now key d ttl st :
  Scenario.sameElsewhere (Memory.buildKey st key) st
    (Memory.set now key d ttl st).2.
Proof.
  rewrite memory_set_state. split; [reflexivity|]. intros k Hk.
  cbn [snd cache Memory.with_cache]. apply lookup_insert_ne. congruence.
Qed.

Lemma memory_delete_elsewhere key st :
  Scenario.sameElsewhere (Memory.buildKey st key) st (Memory.delete key st).2.
Proof.
  split; [reflexivity|]. intros k Hk.
  cbn [Memory.delete snd cache Memory.with_cache].
  apply lookup_delete_ne. congruence.
Qed.

Lemma sameElsewhere_buildKey fk st st1 key :
  Scenario.sameElsewhere fk st st1 ->
  Memory.buildKey st1 key = Memory.buildKey st key.
Proof. intros [Hp _]. unfold Memory.buildKey. rewrite Hp. reflexivity. Qed.

Lemma consume_elsewhere self now identifier pts config
    (st : MemoryRateLimitStorage) :
  Scenario.sameElsewhere
    (Memory.buildKey st (TokenBucket.buildKey self identifier)) st
    (TokenBucket.consume self now identifier pts config st).2.
Proof.
  destruct (TokenBucket.consume self now identifier pts config st)
    as [out st'] eqn:Hc. cbn [snd].
  pose proof (memory_get_elsewhere now (TokenBucket.buildKey self identifier) st)
    as Hget1.
  destruct (@consume_cases _ memory_storage self now identifier pts config
              st _ _ Hc)
    as [(e & Hg & _)|(stored & s1 & Hg & Hcase)];
    cbn [storage_get memory_storage] in Hg; rewrite Hg in Hget1;
    cbn [snd] in Hget1; [exact Hget1|].
  assert (Hset : forall d ttl out',
             bind (storage_set now (TokenBucket.buildKey self identifier) d ttl)
               (fun _ => ret out') s1 = (out, st') ->
             Scenario.sameElsewhere
               (Memory.buildKey st (TokenBucket.buildKey self identifier))
               st st').
  { intros d ttl out' Hb. unfold bind, ret in Hb.
    cbn [storage_set memory_storage] in Hb.
    pose proof (memory_set_elsewhere now
                  (TokenBucket.buildKey self identifier) d ttl s1) as Hs.
    rewrite (sameElsewhere_buildKey _ _ _ _ Hget1) in Hs.
    rewrite memory_set_state in Hb, Hs. cbn [snd] in Hs.
    injection Hb as _ <-. eapply sameElsewhere_trans; eassumption. }
  destruct Hcase as [(_ & _ & ->)|[(_ & _ & Hb)|(_ & _ & Hb)]].
  - exact Hget1.
  - eapply Hset. exact Hb.
  - eapply Hset. exact Hb.
Qed.

Lemma bind_ret_state {St A B} (m : Async St A) (b : B) (st : St) :
  (bind m (fun _ => ret b) st).2 = (m st).2.
Proof. unfold bind, ret. destruct (m st) as [[e|a] s']; reflexivity. Qed.

(** X12.  A call for one identifier, be it [consume], [getStatus],
    [block], [reset] or [isBlocked], leaves the entry of every other
    identifier in the in-memory backend as it was, so what [get] answers
    for the others does not change. *)
Theorem calls_leave_other_identifiers_alone
    (self : TokenBucketStrategy) (config : RateLimitConfig) (now : number)
    (op : Scenario.Op) (st : MemoryRateLimitStorage) (other : string) :
  Scenario.target op <> other ->
  let st1 := (Scenario.step self config now op st).2 in
  cache st1 !! Memory.buildKey st (TokenBucket.buildKey self other)
  = cache st !! Memory.buildKey st (TokenBucket.buildKey self other)
  /\ forall t,
       (Memory.get t (TokenBucket.buildKey self other) st1).1
       = (Memory.get t (TokenBucket.buildKey self other) st).1.
Proof.
  intros Hne st1.
  assert (Hse : Scenario.sameElsewhere
                  (Memory.buildKey st
                     (TokenBucket.buildKey self (Scenario.target op)))
                  st st1).
  { unfold st1. destruct op as [id pts|id|id dur|id|id];
      cbn [Scenario.step Scenario.target].
    - rewrite bind_ret_state. apply consume_elsewhere.
    - rewrite bind_ret_state, (@getStatus_state _ memory_storage).
      apply memory_get_elsewhere.
    - apply memory_set_elsewhere.
    - apply memory_delete_elsewhere.
    - rewrite bind_ret_state.
      replace (TokenBucket.isBlocked self now id st).2
        with (Memory.get now (TokenBucket.buildKey self id) st).2.
      + apply memory_get_elsewhere.
      + unfold TokenBucket.isBlocked, bind. cbn [storage_get memory_storage].
        destruct (Memory.get now (TokenBucket.buildKey self id) st)
          as [[e|[d|]] s1]; try reflexivity.
        destruct (blockUntil d) as [b|]; [destruct (Num.truthy b)|];
          reflexivity. }
  assert (Hfk : Memory.buildKey st (TokenBucket.buildKey self other)
                <> Memory.buildKey st
                     (TokenBucket.buildKey self (Scenario.target op))).
  { intros Heq. apply memory_buildKey_inj, tokenBucket_buildKey_inj in Heq.
    congruence. }
  destruct Hse as [Hp Hc]. split; [apply Hc; exact Hfk|].
  intros t. unfold Memory.get.
  replace (Memory.buildKey st1 (TokenBucket.buildKey self other))
    with (Memory.buildKey st (TokenBucket.buildKey self other))
    by (unfold Memory.buildKey; rewrite Hp; reflexivity).
  rewrite (Hc _ Hfk).
  destruct (cache st !! _) as [e|]; [destruct (Num.ltb (expiresAt e) t)|];
    reflexivity.
Qed.

Lemma calls_leave_other_identifiers_alone_witness :
  (Memory.get 20000 (TokenBucket.buildKey Demo.tb "alice")
     (Scenario.step Demo.tb Demo.blockingConfig 20000
        (Scenario.OpReset "bob") Demo.blocked).2).1
  = (Memory.get 20000 (TokenBucket.buildKey Demo.tb "alice") Demo.blocked).1.
Proof.
  pose proof (calls_leave_other_identifiers_alone Demo.tb Demo.blockingConfig
                20000 (Scenario.OpReset "bob") Demo.blocked "alice") as H.
  apply H. discriminate.
Defined.

(** ** Limiter: the calls around [consume] *)

Section LimiterCalls.
Context {T S : Type} `{IRateLimitStrategy T S}.
Variables (self : RateLimiter T) (now : number).

(** The outcome of a [consume] that reaches the strategy. *)
Lemma consume_delegated_outcome identifier pts config namespace
    (st : LimiterState S) :
  Limiter.sanitizeIdentifier identifier ∉ bypassList st ->
  let inner :=
    strategy_consume (strategy self) now
      (keyGenerator self (Limiter.sanitizeIdentifier identifier) namespace)
      (default 1 pts) (Limiter.mergeConfig (defaultConfig self) config)
      (storage st) in
  (Limiter.consume self now identifier pts config namespace st).1
  = inr (match inner.1 with
         | inr r => r
         | inl _ => Limiter.failOpen self now
         end)
  /\ storage (Limiter.consume self now identifier pts config namespace st).2
     = inner.2.
Proof.
  intros Hnin inner. rewrite consume_delegates by exact Hnin.
  unfold try_catch, Limiter.on_storage. fold inner.
  destruct inner as [[e|r] s']; cbn [fst snd].
  - rewrite consume_handler. split; reflexivity.
  - split; reflexivity.
Qed.

Lemma getStatus_unfold identifier config namespace (st : LimiterState S) :
  Limiter.getStatus self now identifier config namespace st
  = match strategy_getStatus (strategy self) now
            (keyGenerator self (Limiter.sanitizeIdentifier identifier) namespace)
            (Limiter.mergeConfig (defaultConfig self) config) (storage st)
    with
    | (inr r, s') =>
        (inr r, {| storage := s';
                   bypassList := bypassList st;
                   onErrorCalls := onErrorCalls st;
                   loggedErrors := loggedErrors st |})
    | (inl e, s') =>
        (inr (Limiter.failOpen self now),
         {| storage := s';
            bypassList := bypassList st;
            onErrorCalls :=
              onErrorCalls st ++ (if onError self then [e] else []);
            loggedErrors := loggedErrors st |})
    end.
Proof.
  unfold Limiter.getStatus, try_catch, Limiter.on_storage.
  destruct (strategy_getStatus _ _ _ _ (storage st)) as [[e|r] s'];
    [|reflexivity].
  unfold bind, ret, Limiter.reportError. cbn [storage bypassList onErrorCalls
                                               loggedErrors].
  destruct (onError self); [reflexivity|]. rewrite app_nil_r. reflexivity.
Qed.

End LimiterCalls.

(** X13.  [getStatus] of the limiter never throws: when the strategy
    throws, it answers with the default budget, hands the error to a
    registered [onError] once and, unlike [consume], writes nothing to the
    logger.  The bypass list plays no part in it: adding any identifier to
    the list changes neither its result nor what it does to the storage. *)
Theorem limiter_getStatus_fails_open_ignores_bypass
    {T S : Type} `{IRateLimitStrategy T S}
    (self : RateLimiter T) (now : number) (identifier : string)
    (config : option PartialConfig) (namespace : option string)
    (st : LimiterState S) :
  (forall e s',
      strategy_getStatus (strategy self) now
        (keyGenerator self (Limiter.sanitizeIdentifier identifier) namespace)
        (Limiter.mergeConfig (defaultConfig self) config) (storage st)
      = (inl e, s') ->
      Limiter.getStatus self now identifier config namespace st
      = (inr (Limiter.failOpen self now),
         {| storage := s';
            bypassList := bypassList st;
            onErrorCalls :=
              onErrorCalls st ++ (if onError self then [e] else []);
            loggedErrors := loggedErrors st |}))
  /\ (exists r st',
        Limiter.getStatus self now identifier config namespace st
        = (inr r, st'))
  /\ (forall listed,
        (Limiter.getStatus self now identifier config namespace
           (Limiter.addBypass listed st)).1
        = (Limiter.getStatus self now identifier config namespace st).1
        /\ storage (Limiter.getStatus self now identifier config namespace
                      (Limiter.addBypass listed st)).2
           = storage (Limiter.getStatus self now identifier config namespace
                        st).2).
Proof.
  split; [|split].
  - intros e s' Hthrow. rewrite getStatus_unfold, Hthrow. reflexivity.
  - rewrite getStatus_unfold.
    destruct (strategy_getStatus _ _ _ _ (storage st)) as [[e|r] s']; eauto.
  - intros listed. rewrite !getStatus_unfold.
    cbn [Limiter.addBypass storage].
    destruct (strategy_getStatus _ _ _ _ (storage st)) as [[e|r] s'];
      split; reflexivity.
Qed.

Lemma limiter_getStatus_fails_open_ignores_bypass_witness :
  Limiter.getStatus Demo.limiter 1000 "alice" None None Demo.faulty
  = (inr (Limiter.failOpen Demo.limiter 1000),
     {| storage := storage Demo.faulty;
        bypassList := bypassList Demo.faulty;
        onErrorCalls := [mkError "storage get failed"];
        loggedErrors := [] |}).
Proof.
  pose proof (limiter_getStatus_fails_open_ignores_bypass Demo.limiter 1000
                "alice" None None Demo.faulty) as (H & _).
  apply (H (mkError "storage get failed") (storage Demo.faulty)).
  vm_compute. reflexivity.
Defined.

(** X14.  [reset], [block] and [isBlocked] of the limiter have no
    fail-open path: an error thrown by the strategy reaches the caller, and
    neither [onError] nor the logger hears of it. *)
Theorem limiter_maintenance_calls_propagate_errors
    {T S : Type} `{IRateLimitStrategy T S}
    (self : RateLimiter T) (now dur : number) (identifier : string)
    (namespace : option string) (st : LimiterState S) (e : Error) (s' : S) :
  let key :=
    keyGenerator self (Limiter.sanitizeIdentifier identifier) namespace in
  let st' := {| storage := s';
                bypassList := bypassList st;
                onErrorCalls := onErrorCalls st;
                loggedErrors := loggedErrors st |} in
  (strategy_reset (strategy self) key (storage st) = (inl e, s') ->
   Limiter.reset self identifier namespace st = (inl e, st'))
  /\ (strategy_block (strategy self) now key dur (storage st) = (inl e, s') ->
      Limiter.block self now identifier dur namespace st = (inl e, st'))
  /\ (strategy_isBlocked (strategy self) now key (storage st) = (inl e, s') ->
      Limiter.isBlocked self now identifier namespace st = (inl e, st')).
Proof.
  intros key st'. unfold Limiter.reset, Limiter.block, Limiter.isBlocked,
    Limiter.on_storage. fold key.
  repeat split; intros ->; reflexivity.
Qed.

Lemma limiter_maintenance_calls_propagate_errors_witness :
  Limiter.reset Demo.limiter "alice" None (Limiter.init BrokenStorage)
  = (inl (mkError "storage unavailable"), Limiter.init BrokenStorage)
  /\ Limiter.block Demo.limiter 1000 "alice" 30 None
       (Limiter.init BrokenStorage)
     = (inl (mkError "storage unavailable"), Limiter.init BrokenStorage)
  /\ Limiter.isBlocked Demo.limiter 1000 "alice" None
       (Limiter.init BrokenStorage)
     = (inl (mkError "storage unavailable"), Limiter.init BrokenStorage).
Proof.
  pose proof (limiter_maintenance_calls_propagate_errors Demo.limiter 1000 30
                "alice" None (Limiter.init BrokenStorage)
                (mkError "storage unavailable") BrokenStorage)
    as (Hreset & Hblock & HisBlocked).
  split; [|split].
  - apply Hreset. reflexivity.
  - apply Hblock. reflexivity.
  - apply HisBlocked. reflexivity.
Defined.

(** ** Limiter: identifiers and the bypass list *)

Lemma sanitized_char_safe (c : ascii) :
  Limiter.isSafeChar (if Limiter.isSafeChar c then c else "_"%char) = true.
Proof. destruct (Limiter.isSafeChar c) eqn:Hc; [exact Hc | reflexivity]. Qed.

(** X15.  [sanitizeIdentifier] keeps the length, yields only characters of
    [a-zA-Z0-9._-] (so never the key separator ":"), changes nothing when
    applied again, and leaves an identifier as it is exactly when all its
    characters are in that class. *)
Theorem sanitizeIdentifier_normalizes (identifier : string) :
  String.length (Limiter.sanitizeIdentifier identifier)
  = String.length identifier
  /\ Forall (fun c => Limiter.isSafeChar c = true)
       (list_ascii_of_string (Limiter.sanitizeIdentifier identifier))
  /\ ~ In ":"%char
         (list_ascii_of_string (Limiter.sanitizeIdentifier identifier))
  /\ Limiter.sanitizeIdentifier (Limiter.sanitizeIdentifier identifier)
     = Limiter.sanitizeIdentifier identifier
  /\ (Limiter.sanitizeIdentifier identifier = identifier
      <-> Forall (fun c => Limiter.isSafeChar c = true)
            (list_ascii_of_string identifier)).
Proof.
  assert (Hsafe : Forall (fun c => Limiter.isSafeChar c = true)
                    (list_ascii_of_string
                       (Limiter.sanitizeIdentifier identifier))).
  { induction identifier as [|c rest IH]; cbn; constructor;
      [apply sanitized_char_safe | exact IH]. }
  split; [|split; [|split; [|split]]].
  - clear Hsafe.
    induction identifier as [|c rest IH]; cbn; [reflexivity | f_equal; exact IH].
  - exact Hsafe.
  - intros Hin. rewrite Forall_forall in Hsafe.
    apply list_elem_of_In in Hin. specialize (Hsafe _ Hin). discriminate.
  - induction identifier as [|c rest IH]; cbn in Hsafe |- *; [reflexivity|].
    inversion Hsafe as [|? ? Hc Hrest]; subst.
    rewrite sanitized_char_safe. f_equal. apply IH. exact Hrest.
  - split.
    + intros Heq. rewrite <- Heq. exact Hsafe.
    + clear Hsafe. induction identifier as [|c rest IH]; cbn; [reflexivity|].
      intros Hall. inversion Hall as [|? ? Hc Hrest]; subst.
      rewrite Hc. f_equal. apply IH. exact Hrest.
Qed.

(** X16.  For an identifier that sanitization leaves as it is: once
    [addBypass] has listed it, [consume] answers with the always-allowed
    result and changes nothing, neither storage (so no storage call is
    made) nor the error log; identifiers that sanitize to something else
    are treated as before; and after [removeBypass] the call runs the
    strategy on the storage again. *)
Theorem bypass_list_governs_consume
    {T S : Type} `{IRateLimitStrategy T S}
    (self : RateLimiter T) (now : number) (identifier : string)
    (pts : option number) (config : option PartialConfig)
    (namespace : option string) (st : LimiterState S) :
  Limiter.sanitizeIdentifier identifier = identifier ->
  Limiter.consume self now identifier pts config namespace
    (Limiter.addBypass identifier st)
  = (inr (Limiter.bypassResult now), Limiter.addBypass identifier st)
  /\ (forall other,
        Limiter.sanitizeIdentifier other <> identifier ->
        (Limiter.consume self now other pts config namespace
           (Limiter.addBypass identifier st)).1
        = (Limiter.consume self now other pts config namespace st).1
        /\ storage (Limiter.consume self now other pts config namespace
                      (Limiter.addBypass identifier st)).2
           = storage (Limiter.consume self now other pts config namespace
                        st).2)
  /\ storage (Limiter.consume self now identifier pts config namespace
                (Limiter.removeBypass identifier st)).2
     = (strategy_consume (strategy self) now
          (keyGenerator self identifier namespace) (default 1 pts)
          (Limiter.mergeConfig (defaultConfig self) config) (storage st)).2.
Proof.
  intros Hsafe. split; [|split].
  - apply consume_bypassed. rewrite Hsafe. cbn [Limiter.addBypass bypassList].
    apply elem_of_union. left. apply elem_of_singleton. reflexivity.
  - intros other Hother.
    destruct (decide (Limiter.sanitizeIdentifier other ∈ bypassList st))
      as [Hin|Hnin].
    + rewrite !consume_bypassed; [split; reflexivity | exact Hin |].
      cbn [Limiter.addBypass bypassList]. apply elem_of_union. right. exact Hin.
    + assert (Hnin' : Limiter.sanitizeIdentifier other
                      ∉ bypassList (Limiter.addBypass identifier st)).
      { cbn [Limiter.addBypass bypassList].
        intros [Hx%elem_of_singleton|Hx]%elem_of_union; contradiction. }
      destruct (consume_delegated_outcome self now other pts config namespace
                  _ Hnin') as [Hr1 Hs1].
      destruct (consume_delegated_outcome self now other pts config namespace
                  _ Hnin) as [Hr2 Hs2].
      rewrite Hr1, Hr2, Hs1, Hs2. split; reflexivity.
  - assert (Hnin : Limiter.sanitizeIdentifier identifier
                   ∉ bypassList (Limiter.removeBypass identifier st)).
    { rewrite Hsafe. cbn [Limiter.removeBypass bypassList].
      intros [_ Hn]%elem_of_difference. apply Hn, elem_of_singleton.
      reflexivity. }
    destruct (consume_delegated_outcome self now identifier pts config
                namespace _ Hnin) as [_ Hs].
    rewrite Hs, Hsafe. reflexivity.
Qed.

Lemma bypass_list_governs_consume_witness :
  Limiter.consume Demo.limiter 1000 "10.0.0.1" None None None
    (Limiter.addBypass "10.0.0.1" (Limiter.init Demo.blocked))
  = (inr (Limiter.bypassResult 1000),
     Limiter.addBypass "10.0.0.1" (Limiter.init Demo.blocked)).
Proof.
  pose proof (bypass_list_governs_consume Demo.limiter 1000 "10.0.0.1" None
                None None (Limiter.init Demo.blocked)) as H.
  apply H. reflexivity.
Defined.

(** ** Trace identifiers *)

Lemma append_cons (c : ascii) (a b : string) :
  String c a +:+ b = String c (a +:+ b).
Proof. reflexivity. Qed.

Lemma span_spec p s a b :
  TraceId.span p s = (a, b) -> s = a +:+ b /\ TraceId.all p a = true.
Proof.
  revert a b. induction s as [|c rest IH]; intros a b Hs; cbn in Hs.
  - injection Hs as <- <-. split; reflexivity.
  - destruct (p c) eqn:Hc.
    + destruct (TraceId.span p rest) as [a' b'] eqn:Hr.
      injection Hs as <- <-. destruct (IH a' b' eq_refl) as [-> Ha].
      split; [reflexivity|]. cbn. rewrite Hc, Ha. reflexivity.
    + injection Hs as <- <-. split; reflexivity.
Qed.

Lemma span_run p a c b :
  TraceId.all p a = true -> p c = false ->
  TraceId.span p (a +:+ String c b) = (a, String c b).
Proof.
  intros Ha Hc. induction a as [|x a IH].
  - change (EmptyString +:+ String c b) with (String c b). cbn. rewrite Hc.
    reflexivity.
  - cbn in Ha. apply andb_true_iff in Ha as [Hx Ha].
    rewrite append_cons. cbn. rewrite Hx, (IH Ha). reflexivity.
Qed.

Lemma digit36_lower (d : N) :
  (d < 36)%N -> TraceId.isLowerAlnum (TraceId.digit36 d) = true.
Proof.
  intros Hd.
  assert (Hall : forallb (fun k => TraceId.isLowerAlnum
                                      (TraceId.digit36 (N.of_nat k)))
                   (seq 0 36) = true) by (vm_compute; reflexivity).
  rewrite forallb_forall in Hall.
  rewrite <- (N2Nat.id d). apply Hall. apply in_seq. lia.
Qed.

Lemma toString36_go_lower fuel : forall n acc,
  TraceId.all TraceId.isLowerAlnum acc = true ->
  TraceId.all TraceId.isLowerAlnum (TraceId.toString36_go fuel n acc) = true.
Proof.
  induction fuel as [|fuel IH]; intros n acc Hacc; [exact Hacc|].
  cbn [TraceId.toString36_go].
  assert (Hacc' : TraceId.all TraceId.isLowerAlnum
                    (String (TraceId.digit36 (n mod 36)) acc) = true).
  { cbn [TraceId.all]. rewrite digit36_lower, Hacc; [reflexivity|].
    apply N.mod_lt. discriminate. }
  destruct (n / 36 =? 0)%N; [exact Hacc' | apply IH; exact Hacc'].
Qed.

Lemma toString36_go_grows fuel : forall n acc,
  (String.length acc <= String.length (TraceId.toString36_go fuel n acc))%nat.
Proof.
  induction fuel as [|fuel IH]; intros n acc; [reflexivity|].
  cbn [TraceId.toString36_go].
  destruct (n / 36 =? 0)%N.
  - cbn. lia.
  - etransitivity; [|apply IH]. cbn. lia.
Qed.

Lemma toString36_shape (n : N) :
  TraceId.all TraceId.isLowerAlnum (TraceId.toString36 n) = true
  /\ exists c rest, TraceId.toString36 n = String c rest.
Proof.
  split; [apply toString36_go_lower; reflexivity|].
  unfold TraceId.toString36. cbn [TraceId.toString36_go].
  destruct (n / 36 =? 0)%N; [eauto|].
  pose proof (toString36_go_grows (N.to_nat (N.log2 n)) (n / 36)
                (String (TraceId.digit36 (n mod 36)) EmptyString)) as Hlen.
  destruct (TraceId.toString36_go _ _ _) as [|c rest]; [cbn in Hlen; lia|eauto].
Qed.

Lemma generateTraceId_valid now random :
  random <> EmptyString -> TraceId.all TraceId.isUrlSafe random = true ->
  TraceId.isValidTraceId (TraceId.generateTraceId now random) = true.
Proof.
  intros Hne Hsafe.
  destruct (toString36_shape now) as [Hlower (c & rest & Hshape)].
  destruct random as [|r0 rtail]; [congruence|].
  unfold TraceId.generateTraceId.
  change ("tr_" +:+ TraceId.toString36 now +:+ "_" +:+ String r0 rtail)
    with (String "t" (String "r" (String "_"
            (TraceId.toString36 now +:+ String "_" (String r0 rtail))))).
  unfold TraceId.isValidTraceId.
  rewrite (span_run _ _ "_"%char _ Hlower eq_refl), Hshape.
  cbn [Ascii.eqb Bool.eqb andb]. exact Hsafe.
Qed.

(** [toString(36)] on a few numbers. *)
Example toString36_samples :
  map TraceId.toString36 [0; 9; 10; 35; 36; 1295; 1296]%N
  = ["0"; "9"; "a"; "z"; "10"; "zz"; "100"]%string.
Proof. vm_compute. reflexivity. Qed.

(** X17.  Whatever the clock reads, and for any non-empty [nanoid] string
    (characters of [a-zA-Z0-9_-]), the trace id that [generateTraceId]
    builds passes [isValidTraceId], the request id that [generateRequestId]
    builds does not, and the trace id that the context middleware selects
    is valid whatever the incoming header holds. *)
Theorem generated_trace_ids_are_valid
    (now : N) (random : string) (traceIdHeader : option string) :
  random <> EmptyString -> TraceId.all TraceId.isUrlSafe random = true ->
  TraceId.isValidTraceId (TraceId.generateTraceId now random) = true
  /\ TraceId.isValidTraceId (TraceId.generateRequestId now random) = false
  /\ TraceId.isValidTraceId (TraceId.selectTraceId traceIdHeader now random)
     = true.
Proof.
  intros Hne Hsafe.
  pose proof (generateTraceId_valid now random Hne Hsafe) as Hgen.
  split; [exact Hgen|]. split; [reflexivity|].
  unfold TraceId.selectTraceId. destruct traceIdHeader as [h|]; [|exact Hgen].
  destruct (negb (String.eqb h "") && TraceId.isValidTraceId h) eqn:Hh;
    [|exact Hgen].
  apply andb_true_iff in Hh as [_ Hh]. exact Hh.
Qed.

Lemma generated_trace_ids_are_valid_witness :
  TraceId.isValidTraceId (TraceId.generateTraceId 1700000000000 "V1StGXR8_Z")
  = true
  /\ TraceId.isValidTraceId
       (TraceId.generateRequestId 1700000000000 "V1StGXR8_Z") = false
  /\ TraceId.isValidTraceId
       (TraceId.selectTraceId (Some "tr_forged id"%string) 1700000000000
          "V1StGXR8_Z") = true.
Proof.
  apply (generated_trace_ids_are_valid 1700000000000 "V1StGXR8_Z"
           (Some "tr_forged id"%string)).
  - discriminate.
  - reflexivity.
Defined.

(** X18.  [isValidTraceId] accepts exactly the strings ["tr_" A "_" B]
    where [A] is a non-empty run of [a-z0-9] and [B] a non-empty run of
    [a-zA-Z0-9_-]. *)
Theorem isValidTraceId_accepts_exactly (traceId : string) :
  TraceId.isValidTraceId traceId = true
  <-> exists a b,
        traceId = ("tr_" +:+ a +:+ "_" +:+ b)%string
        /\ a <> EmptyString /\ TraceId.all TraceId.isLowerAlnum a = true
        /\ b <> EmptyString /\ TraceId.all TraceId.isUrlSafe b = true.
Proof.
  split.
  - unfold TraceId.isValidTraceId.
    destruct traceId as [|c1 [|c2 [|c3 rest]]]; try discriminate.
    intros Hv. apply andb_true_iff in Hv as [Hv Hspan].
    apply andb_true_iff in Hv as [Hv H3]. apply andb_true_iff in Hv as [H1 H2].
    apply Ascii.eqb_eq in H1, H2, H3. subst c1 c2 c3.
    destruct (TraceId.span TraceId.isLowerAlnum rest) as [a r1] eqn:Hs.
    destruct a as [|a0 a']; [discriminate|].
    destruct r1 as [|sep [|c tail]]; try discriminate.
    apply andb_true_iff in Hspan as [Hsep Hb]. apply Ascii.eqb_eq in Hsep.
    subst sep. apply span_spec in Hs as [-> Ha].
    exists (String a0 a'), (String c tail).
    split; [reflexivity|]. repeat split; [discriminate | exact Ha
                                         | discriminate | exact Hb].
  - intros (a & b & -> & Ha & Hal & Hb & Hbl).
    destruct a as [|a0 a']; [congruence|]. destruct b as [|c tail]; [congruence|].
    change ("tr_" +:+ String a0 a' +:+ "_" +:+ String c tail)
      with (String "t" (String "r" (String "_"
              (String a0 a' +:+ String "_" (String c tail))))).
    unfold TraceId.isValidTraceId.
    rewrite (span_run _ _ "_"%char _ Hal eq_refl).
    cbn [Ascii.eqb Bool.eqb andb]. exact Hbl.
Qed.

(** ** Console logger *)

Lemma contextFields_no_message ctx :
  ConsoleLogger.contextFields ctx !! "message"%string = None.
Proof.
  unfold ConsoleLogger.contextFields.
  destruct (userId ctx), (ip ctx), (userAgent ctx);
    repeat (rewrite lookup_insert_ne by discriminate);
    apply lookup_empty.
Qed.

Lemma contextFields_ids ctx :
  ConsoleLogger.contextFields ctx !! "traceId"%string
  = Some (JsString (traceId ctx))
  /\ ConsoleLogger.contextFields ctx !! "requestId"%string
     = Some (JsString (requestId ctx)).
Proof.
  unfold ConsoleLogger.contextFields.
  destruct (userId ctx), (ip ctx), (userAgent ctx); split;
    repeat (rewrite lookup_insert_ne by discriminate);
    apply lookup_insert_eq.
Qed.

(** X19.  In a log entry built with a request context, every field of the
    context is there with the context's value: neither the message nor a
    [meta] entry of the same name can replace the trace id or the request
    id.  The message can be replaced, though: a [meta] entry named
    "message" takes its place, with and without context. *)
Theorem log_entry_context_wins
    (ctx : RequestContext) (message : string)
    (meta : option (gmap string JsValue)) :
  let entry := ConsoleLogger.formatMessageWithContext ctx message meta in
  (forall k v, ConsoleLogger.contextFields ctx !! k = Some v ->
               entry !! k = Some v)
  /\ entry !! "traceId"%string = Some (JsString (traceId ctx))
  /\ entry !! "requestId"%string = Some (JsString (requestId ctx))
  /\ entry !! "message"%string
     = Some (default (JsString message) (meta ≫= lookup "message"%string))
  /\ ConsoleLogger.formatMessage message meta !! "message"%string
     = Some (default (JsString message) (meta ≫= lookup "message"%string)).
Proof.
  intros entry.
  assert (Hwin : forall k v, ConsoleLogger.contextFields ctx !! k = Some v ->
                             entry !! k = Some v).
  { intros k v Hk. unfold entry, ConsoleLogger.formatMessageWithContext, spread.
    apply lookup_union_Some_l. exact Hk. }
  assert (Hmsg : ConsoleLogger.formatMessage message meta !! "message"%string
                 = Some (default (JsString message)
                           (meta ≫= lookup "message"%string))).
  { unfold ConsoleLogger.formatMessage, spread.
    rewrite lookup_union, lookup_singleton_eq.
    destruct meta as [m|]; cbn.
    - destruct (m !! "message"%string) as [v|]; reflexivity.
    - rewrite lookup_empty. reflexivity. }
  destruct (contextFields_ids ctx) as [Ht Hr].
  split; [exact Hwin|]. split; [apply Hwin; exact Ht|].
  split; [apply Hwin; exact Hr|]. split; [|exact Hmsg].
  unfold entry, ConsoleLogger.formatMessageWithContext.
  unfold spread at 1. rewrite lookup_union_r by apply contextFields_no_message.
  exact Hmsg.
Qed.

Lemma log_entry_context_wins_witness :
  ConsoleLogger.formatMessageWithContext
    {| traceId := "tr_a_b"; userId := None; requestId := "req_a_b";
       startTime := 0; ip := None; userAgent := None |}
    "hello" (Some {["traceId"%string := JsString "spoofed"]})
    !! "traceId"%string
  = Some (JsString "tr_a_b").
Proof.
  pose proof (log_entry_context_wins
                {| traceId := "tr_a_b"; userId := None; requestId := "req_a_b";
                   startTime := 0; ip := None; userAgent := None |}
                "hello" (Some {["traceId"%string := JsString "spoofed"]}))
    as (H & _).
  apply H. reflexivity.
Defined.

(** ** Response builder *)

Section ResponseFacts.
Variables (now : number) (isoNow : string) (numberToString : number -> string).

Lemma buildMeta_with_context c ctx additional :
  ctx_reqCtx c = Some ctx ->
  exists meta, ResponseBuilder.buildMeta now isoNow c additional = inr meta.
Proof. intros Hc. unfold ResponseBuilder.buildMeta. rewrite Hc. eauto. Qed.

Lemma buildMeta_without_context c additional :
  ctx_reqCtx c = None ->
  ResponseBuilder.buildMeta now isoNow c additional
  = inl (mkError "TypeError: Cannot read properties of undefined").
Proof. intros Hc. unfold ResponseBuilder.buildMeta. rewrite Hc. reflexivity. Qed.

Lemma buildHeaders_content_type c additional :
  (additional ≫= lookup "Content-Type"%string) = None ->
  ResponseBuilder.buildHeaders c additional !! "Content-Type"%string
  = Some "application/json"%string.
Proof.
  intros Hadd. unfold ResponseBuilder.buildHeaders.
  rewrite lookup_union_r.
  - apply lookup_insert_eq.
  - destruct additional as [m|]; [exact Hadd | apply lookup_empty].
Qed.

End ResponseFacts.

(** X20.  With a request context in place, [rateLimited] answers with
    status 429 and a fail body carrying the message (by default "Too many
    requests").  The [Retry-After] header is there, holding the number as
    text, exactly when [retryAfter] is given and not zero, so in particular
    for every [retryAfter >= 1]; for a missing or zero [retryAfter] there
    is no such header. *)
Theorem rateLimited_sets_retry_after
    (now : number) (isoNow : string) (numberToString : number -> string)
    (c : Context) (ctx : RequestContext) (retryAfter : option number)
    (message : option string) :
  ctx_reqCtx c = Some ctx ->
  exists resp meta,
    ResponseBuilder.rateLimited now isoNow numberToString c retryAfter message
    = inr resp
    /\ status resp = 429
    /\ body resp
       = Some (FailBody (default "Too many requests"%string message) None meta)
    /\ headers resp !! "Content-Type"%string = Some "application/json"%string
    /\ (forall ra, retryAfter = Some ra -> ~ ra == 0 ->
          headers resp !! "Retry-After"%string = Some (numberToString ra))
    /\ (forall ra, retryAfter = Some ra -> 1 <= ra ->
          headers resp !! "Retry-After"%string = Some (numberToString ra))
    /\ (retryAfter = None \/ (exists ra, retryAfter = Some ra /\ ra == 0) ->
        headers resp !! "Retry-After"%string = None).
Proof.
  intros Hc.
  destruct (buildMeta_with_context now isoNow c ctx None Hc) as [meta Hmeta].
  assert (Hpresent : forall ra, retryAfter = Some ra -> ~ ra == 0 ->
            ResponseBuilder.buildHeaders c
              (match retryAfter with
               | Some ra =>
                   if Num.truthy ra
                   then Some {["Retry-After"%string := numberToString ra]}
                   else None
               | None => None
               end) !! "Retry-After"%string = Some (numberToString ra)).
  { intros ra -> Hra. apply truthy_neq in Hra. rewrite Hra.
    unfold ResponseBuilder.buildHeaders. apply lookup_union_Some_l.
    apply lookup_singleton_eq. }
  eexists _, meta. unfold ResponseBuilder.rateLimited, ResponseBuilder.fail.
  cbn [ResponseBuilder.onlyStatus mbind option_bind option_meta option_headers].
  rewrite Hmeta. split; [reflexivity|].
  cbn [status body headers ResponseBuilder.json].
  split; [reflexivity|]. split; [reflexivity|]. split; [|split; [|split]].
  - apply buildHeaders_content_type.
    destruct retryAfter as [ra|]; [|reflexivity].
    destruct (Num.truthy ra); [|reflexivity]. cbn.
    apply lookup_singleton_ne. discriminate.
  - exact Hpresent.
  - intros ra Hra H1. apply (Hpresent ra Hra). lra.
  - intros Hnone.
    assert (Hhs : match retryAfter with
                  | Some ra =>
                      if Num.truthy ra
                      then Some {["Retry-After"%string := numberToString ra]}
                      else None
                  | None => None
                  end = (None : option (gmap string string))).
    { destruct Hnone as [-> | (ra & -> & Hra)]; [reflexivity|].
      assert (Hf : Num.truthy ra = false).
      { destruct (Num.truthy ra) eqn:Ht; [|reflexivity].
        apply truthy_neq in Ht. contradiction. }
      rewrite Hf. reflexivity. }
    rewrite Hhs. unfold ResponseBuilder.buildHeaders. cbn [default].
    rewrite lookup_union_r by apply lookup_empty.
    repeat (rewrite lookup_insert_ne by discriminate). apply lookup_empty.
Qed.

Lemma rateLimited_sets_retry_after_witness :
  exists resp,
    ResponseBuilder.rateLimited 2000 "2023-11-14T22:13:20.000Z"
      (fun _ => "60"%string)
      {| ctx_reqCtx := Some {| traceId := "tr_a_b"; userId := None;
                               requestId := "req_a_b"; startTime := 1000;
                               ip := None; userAgent := None |};
         ctx_headers := ∅ |}
      (Some (retryAfter Demo.rejected)) None = inr resp
    /\ status resp = 429
    /\ headers resp !! "Retry-After"%string = Some "60"%string.
Proof.
  destruct (rateLimited_sets_retry_after 2000 "2023-11-14T22:13:20.000Z"
              (fun _ => "60"%string)
              {| ctx_reqCtx := Some {| traceId := "tr_a_b"; userId := None;
                                       requestId := "req_a_b"; startTime := 1000;
                                       ip := None; userAgent := None |};
                 ctx_headers := ∅ |}
              {| traceId := "tr_a_b"; userId := None; requestId := "req_a_b";
                 startTime := 1000; ip := None; userAgent := None |}
              (Some (retryAfter Demo.rejected)) None eq_refl)
    as (resp & meta & Hr & Hs & _ & _ & _ & Hra & _).
  exists resp. split; [exact Hr|]. split; [exact Hs|].
  apply (Hra (retryAfter Demo.rejected)); [reflexivity | vm_compute; discriminate].
Defined.



(** X22.  Without a request context in the Hono context, every builder
    that writes a JSON body throws (it reads [startTime] of the missing
    context), the error builders included; only [noContent] answers: 204,
    no body, the default content type and empty trace and request ids. *)
Theorem builders_need_request_context
    (now : number) (isoNow : string) (numberToString : number -> string)
    (c : Context) (data : JsValue) (items : list JsValue)
    (pagination : PaginationMeta) (errors : list ValidationError)
    (message : option string) (code : option string)
    (details : option JsValue) (retry : option number)
    (options : option ResponseOptions) :
  ctx_reqCtx c = None ->
  let thrown : Error + Response :=
    inl (mkError "TypeError: Cannot read properties of undefined") in
  ResponseBuilder.success now isoNow c data options = thrown
  /\ ResponseBuilder.created now isoNow c data options = thrown
  /\ ResponseBuilder.accepted now isoNow c data options = thrown
  /\ ResponseBuilder.paginated now isoNow c items pagination options = thrown
  /\ ResponseBuilder.fail now isoNow c (default ""%string message)
       (Some errors) options = thrown
  /\ ResponseBuilder.error now isoNow c (default ""%string message) code
       details options = thrown
  /\ ResponseBuilder.validationError now isoNow c errors message = thrown
  /\ ResponseBuilder.notFound now isoNow c message = thrown
  /\ ResponseBuilder.unauthorized now isoNow c message = thrown
  /\ ResponseBuilder.forbidden now isoNow c message = thrown
  /\ ResponseBuilder.rateLimited now isoNow numberToString c retry message
     = thrown
  /\ ResponseBuilder.serverError now isoNow c message code = thrown
  /\ ResponseBuilder.serviceUnavailable now isoNow c message = thrown
  /\ ResponseBuilder.noContent c
     = {| status := 204;
          headers :=
            {["Content-Type"%string := "application/json"%string;
              "X-Trace-Id"%string := ""%string;
              "X-Request-Id"%string := ""%string]};
          body := None |}.
Proof.
  intros Hc thrown.
  assert (Hmeta : forall additional,
             ResponseBuilder.buildMeta now isoNow c additional
             = inl (mkError "TypeError: Cannot read properties of undefined")).
  { intros additional. apply buildMeta_without_context. exact Hc. }
  unfold ResponseBuilder.created, ResponseBuilder.accepted,
    ResponseBuilder.validationError, ResponseBuilder.notFound,
    ResponseBuilder.unauthorized, ResponseBuilder.forbidden,
    ResponseBuilder.rateLimited, ResponseBuilder.serverError,
    ResponseBuilder.serviceUnavailable, ResponseBuilder.success,
    ResponseBuilder.paginated, ResponseBuilder.fail, ResponseBuilder.error.
  rewrite !Hmeta.
  unfold ResponseBuilder.noContent, ResponseBuilder.buildHeaders.
  rewrite Hc. repeat split.
Qed.

Lemma builders_need_request_context_witness :
  ResponseBuilder.serverError 2000 "2023-11-14T22:13:20.000Z"
    {| ctx_reqCtx := None; ctx_headers := ∅ |} None None
  = inl (mkError "TypeError: Cannot read properties of undefined").
Proof.
  pose proof (builders_need_request_context 2000 "2023-11-14T22:13:20.000Z"
                (fun _ => ""%string)
                {| ctx_reqCtx := None; ctx_headers := ∅ |}
                JsNull []
                {| page := 1; page_limit := 10; total := 0; totalPages := 0;
                   hasNextPage := false; hasPreviousPage := false |}
                [] None None None None None eq_refl) as H.
  cbn zeta in H.
  destruct H as (_ & _ & _ & _ & _ & _ & _ & _ & _ & _ & _ & H & _).
  exact H.
Defined.

(** ** Token bucket: what a result can say *)

Lemma floor_between (x hi : number) :
  0 <= x -> x <= hi -> 0 <= Math.floor x /\ Math.floor x <= hi.
Proof.
  intros H0 Hhi. unfold Math.floor. split.
  - pose proof (Qfloor_resp_le _ _ H0) as Hz.
    change (Qfloor 0) with 0%Z in Hz.
    change 0 with (inject_Z 0). rewrite <- Zle_Qle. exact Hz.
  - pose proof (Qfloor_le x). lra.
Qed.

(** X11.  On a backend whose records are within the capacity (as every
    call sequence leaves it), with a valid configuration and a clock that
    has not gone back, [consume] with a non-negative cost and [getStatus]
    report [limit = points] and a [remaining] between 0 and that limit. *)
Theorem remaining_within_limit
    (self : TokenBucketStrategy) (config : RateLimitConfig) (now t : number)
    (identifier : string) (pts : number) (st : MemoryRateLimitStorage) :
  0 <= points config -> 0 < duration config ->
  Scenario.cacheWithin config t st -> t <= now -> 0 <= pts ->
  (exists r st',
      TokenBucket.consume self now identifier pts config st = (inr r, st')
      /\ limit r = points config
      /\ 0 <= remaining r /\ remaining r <= limit r)
  /\ (exists r st',
        TokenBucket.getStatus self now identifier config st = (inr r, st')
        /\ limit r = points config
        /\ 0 <= remaining r /\ remaining r <= limit r).
Proof.
  intros Hp Hd Hw Hle Hpts.
  destruct (within_get config now (TokenBucket.buildKey self identifier) st t Hw)
    as (stored & s1 & Hget & _ & Hstored).
  destruct (loaded_within config Hp stored now t Hle Hstored) as [Hl0 Hl1].
  destruct (refill_within config Hp Hd _ now Hl0 Hl1) as [Hr0 Hr1].
  split.
  - destruct (TokenBucket.blockedAt (Scenario.loaded stored config now) now)
      eqn:Hb.
    + eexists _, _. split.
      { apply (@consume_blocked _ memory_storage self now identifier pts config
                 st stored s1 Hget Hb). }
      split; [reflexivity|].
      cbn [remaining limit TokenBucket.blockedResult]. split; [lra | exact Hp].
    + destruct (Num.ltb (tokens (TokenBucket.refillTokens
                   (Scenario.loaded stored config now) config now)) pts)
        eqn:Hlt.
      * eexists _, _. split.
        { rewrite (@consume_rejected _ memory_storage self now identifier pts
                     config st stored s1 Hget Hb Hlt). reflexivity. }
        split; [reflexivity|].
        cbn [remaining limit Scenario.rejectedResult].
        rewrite applyBlock_tokens. apply floor_between; assumption.
      * eexists _, _. split.
        { rewrite (@consume_accepted _ memory_storage self now identifier pts
                     config st stored s1 Hget Hb Hlt). reflexivity. }
        split; [reflexivity|].
        cbn [remaining limit Scenario.acceptedResult Scenario.spent tokens].
        apply ltb_ge in Hlt. apply floor_between; lra.
  - unfold TokenBucket.getStatus, bind. cbn [storage_get memory_storage].
    rewrite Hget. destruct stored as [d|].
    + cbn [Scenario.loaded] in *. destruct (TokenBucket.blockedAt d now).
      * eexists _, _. split; [reflexivity|]. split; [reflexivity|].
        cbn [remaining limit TokenBucket.blockedResult]. split; [lra | exact Hp].
      * eexists _, _. split; [reflexivity|]. split; [reflexivity|].
        cbn [remaining limit]. apply floor_between; assumption.
    + eexists _, _. split; [reflexivity|]. split; [reflexivity|].
      cbn [remaining limit]. split; [exact Hp | lra].
Qed.

Lemma remaining_within_limit_witness :
  exists r st',
    TokenBucket.consume Demo.tb 6000 "alice" 3 Demo.config10 Demo.empty
    = (inr r, st')
    /\ limit r = points Demo.config10
    /\ 0 <= remaining r /\ remaining r <= limit r.
Proof.
  pose proof (remaining_within_limit Demo.tb Demo.config10 6000 0 "alice" 3
                Demo.empty) as H.
  apply H.
  - vm_compute. discriminate.
  - reflexivity.
  - intros k e He. cbn in He. rewrite lookup_empty in He. discriminate.
  - vm_compute. discriminate.
  - vm_compute. discriminate.
Defined.

(** X15 and X18 at concrete inputs. *)
Lemma sanitizeIdentifier_normalizes_witness :
  Limiter.sanitizeIdentifier (Limiter.sanitizeIdentifier "1.2.3.4:443")
  = Limiter.sanitizeIdentifier "1.2.3.4:443"
  /\ (Limiter.sanitizeIdentifier "user-42" = "user-42"%string).
Proof.
  pose proof (sanitizeIdentifier_normalizes "1.2.3.4:443")
    as (_ & _ & _ & Hidem & _).
  pose proof (sanitizeIdentifier_normalizes "user-42") as (_ & _ & _ & _ & Hfix).
  split; [exact Hidem|]. apply Hfix. repeat constructor.
Defined.

Lemma isValidTraceId_accepts_exactly_witness :
  TraceId.isValidTraceId "tr_loyw3v28_V1StGXR8_Z" = true.
Proof.
  apply (isValidTraceId_accepts_exactly "tr_loyw3v28_V1StGXR8_Z").
  exists "loyw3v28"%string, "V1StGXR8_Z"%string.
  repeat split; try discriminate; reflexivity.
Defined.
